(** * scripts/manage_dependencies.py: a shallow embedding

    The script queries [poetry show --outdated --json], prints a table,
    writes a JSON report and patches a status section into README.md.

    Python values are modelled as the code has them: a [str] is a list of
    Unicode code points, integers are [Z], [str.find] answers [-1] when
    nothing is found and slices clamp their bounds.  Effects (the file
    system, the console, the external command, the clock) are threaded
    through an explicit world with a small exception monad.  The functions
    of the [json] module and the operations of Python on objects that are
    not strings are parameters of the script ([PyLib]): every statement
    holds for all of them.  check_compatibility, which the script never
    calls, comes with the rest of the script after the sample worlds. *)

From Stdlib Require Import ZArith Strings.String Strings.Ascii DecimalString.
From stdpp Require Import base tactics option list numbers countable gmap.

Local Open Scope Z_scope.

(** ** Python strings *)

(** A code point. *)
Abbreviation char := N (only parsing).

(** A Python [str]: the sequence of its code points. *)
Abbreviation str := (list char) (only parsing).

(** The line feed of ["\n"]. *)
Definition LF : char := 10%N.

(** The characters of a literal of the source: [\n] is the line feed, as in
    Python, and every other character stands for itself. *)
Fixpoint unescape (s : list ascii) : str :=
  match s with
  | "\"%char :: "n"%char :: s' => LF :: unescape s'
  | c :: s' => N_of_ascii c :: unescape s'
  | [] => []
  end.

(** An ASCII literal as a [str]. *)
Definition lit (s : string) : str := unescape (list_ascii_of_string s).
Arguments lit : simpl never.

(** [len(s)] *)
Definition len (s : str) : Z := Z.of_nat (length s).

(** [s.startswith(sub)], the comparison [str.find] makes at each position. *)
Fixpoint startswith (s sub : str) {struct sub} : bool :=
  match sub, s with
  | [], _ => true
  | _ :: _, [] => false
  | c :: sub', d :: s' => if decide (c = d) then startswith s' sub' else false
  end.

(** The left-to-right scan of [str.find]: [pos] is the index of the head of
    [s] in the whole string. *)
Fixpoint search (sub s : str) (pos : nat) : option nat :=
  if startswith s sub then Some pos
  else match s with
       | [] => None
       | _ :: s' => search sub s' (S pos)
       end.

(** A slice bound as Python normalises it: a negative bound counts from the
    end, and the result is clamped to [0, len(s)]. *)
Definition clamp (s : str) (i : Z) : nat :=
  Z.to_nat (Z.min (len s) (if i <? 0 then Z.max 0 (i + len s) else i)).

(** [s.find(sub, start)]: the lowest index [i >= start] with
    [s[i:i+len(sub)] == sub], or [-1]. *)
Definition find (s sub : str) (start : Z) : Z :=
  let start := if start <? 0 then Z.max 0 (start + len s) else start in
  if len s <? start then -1
  else match search sub (drop (Z.to_nat start) s) (Z.to_nat start) with
       | Some i => Z.of_nat i
       | None => -1
       end.

(** [s[:i]] *)
Definition slice_to (s : str) (i : Z) : str := take (clamp s i) s.

(** [s[i:]] *)
Definition slice_from (s : str) (i : Z) : str := drop (clamp s i) s.

(** [sep.join(parts)] *)
Fixpoint join (sep : str) (parts : list str) : str :=
  match parts with
  | [] => []
  | [p] => p
  | p :: ps => p ++ sep ++ join sep ps
  end.

(** ** The section splice (update_readme_status, lines 131-147)

    [section] is the already joined text ["\n".join(status_section)]. *)
Definition splice (content start_marker end_marker section : str) : str :=
  let start_idx := find content start_marker 0 in
  if start_idx =? -1 then
    (* Add at the end *)
    content ++ (lit "\n\n" ++ section)
  else
    (* Find next section *)
    let end_idx := find content end_marker (start_idx + len start_marker) in
    let end_idx := if end_idx =? -1 then len content else end_idx in
    (* Replace section *)
    slice_to content start_idx ++ section ++ lit "\n\n"
      ++ slice_from content end_idx.

(** The two markers of update_readme_status. *)
Definition start_marker : str := lit "## Dependency Status".
Definition end_marker : str := lit "##".

(** ** Python values and exceptions *)

(** The objects [json.loads] can return.  A float is carried by its
    [repr()] text; nothing in the script computes with one. *)
#[local] Set Warnings "-register-all".
Inductive value :=
| VNone
| VBool (b : bool)
| VInt (n : Z)
| VFloat (repr : str)
| VStr (s : str)
| VList (items : list value)
| VDict (items : list (str * value)).

(** The exceptions that can travel through the script. *)
Inductive exn :=
| JSONDecodeError
| KeyError (key : str)
| TypeError
| FileNotFoundError
| FileExistsError
| IsADirectoryError
| NotADirectoryError.

Inductive result (A : Type) :=
| Ok (a : A)
| Raise (e : exn).
Arguments Ok {A} a.
Arguments Raise {A} e.

(** One (name, current, latest) tuple of check_updates. *)
Abbreviation triple := (value * value * value)%type (only parsing).

(** The library functions the script calls but does not define.
    [json_loads] answers [None] where [json.loads] raises JSONDecodeError;
    [json_dumps indent] is the text [json.dump(obj, f, indent=indent)]
    writes; [eq_other] is [==] and [str_other] is [str()] on objects that
    are not both strings. *)
Class PyLib := {
  json_loads : str → option value;
  json_dumps : Z → value → str;
  eq_other : value → value → bool;
  str_other : value → str
}.

(** [a == b] *)
Definition py_eq `{PyLib} (a b : value) : bool :=
  match a, b with
  | VStr x, VStr y => bool_decide (x = y)
  | VStr _, _ | _, VStr _ => false
  | _, _ => eq_other a b
  end.

(** [f"{v}"] *)
Definition py_format `{PyLib} (v : value) : str :=
  match v with
  | VStr s => s
  | _ => str_other v
  end.

(** [iter(v)], as a [for] loop calls it: a list gives its items, a dict its
    keys, a str its one-character strings; nothing else is iterable. *)
Definition py_iter (v : value) : result (list value) :=
  match v with
  | VList items => Ok items
  | VDict items => Ok ((λ kv, VStr kv.1) <$> items)
  | VStr s => Ok ((λ c, VStr [c]) <$> s)
  | _ => Raise TypeError
  end.

(** [d[key]] on a dict: the keys of a dict are distinct, so the first
    binding is the binding. *)
Fixpoint dict_get (items : list (str * value)) (key : str) : option value :=
  match items with
  | [] => None
  | (k, v) :: items' => if decide (k = key) then Some v else dict_get items' key
  end.

(** [v[key]] with a string key: only a dict accepts one. *)
Definition py_getitem (v : value) (key : str) : result value :=
  match v with
  | VDict items =>
      match dict_get items key with
      | Some x => Ok x
      | None => Raise (KeyError key)
      end
  | _ => Raise TypeError
  end.

(** ** The world *)

(** A path, as its components: [Path("a/b") / "c"] is [["a"; "b"; "c"]]. *)
Abbreviation path := (list str) (only parsing).

Inductive node :=
| File (content : str)
| Dir.

(** What [subprocess.run(..., capture_output=True, text=True)] does: the
    command runs to completion, or the call itself raises (FileNotFoundError
    when the executable is not on the PATH). *)
Inductive run_outcome :=
| Completed (returncode : Z) (stdout stderr : str)
| Failed (e : exn).

(** A [datetime], with every field inside its range. *)
Record datetime := {
  year : N; month : N; day : N;
  hour : N; minute : N; second : N; microsecond : N
}.

(** A [rich.table.Table]: it records what it is given; what rich itself
    does with a cell is outside the script. *)
Record Table := {
  title : str;
  columns : list str;
  rows : list (list value)
}.

(** What [console.print] is handed. *)
Inductive renderable :=
| Markup (text : str)
| Rich (table : Table).

(** Everything outside the process.  [subprocess n] is the outcome of the
    [n]-th command the run launches and [clock n] the [n]-th reading of
    [datetime.now()]; [calls] and [ticks] count how many were consumed.
    The file system is the working directory (the empty path, always a
    directory); permissions and disk space are not modelled. *)
Record world := {
  fs : gmap path node;
  subprocess : nat → run_outcome;
  calls : nat;
  clock : nat → datetime;
  ticks : nat;
  working_set : list (str * str);
  console : list renderable
}.

Definition set_fs (f : gmap path node) (w : world) : world :=
  {| fs := f; subprocess := subprocess w; calls := calls w; clock := clock w;
     ticks := ticks w; working_set := working_set w; console := console w |}.

Definition set_calls (n : nat) (w : world) : world :=
  {| fs := fs w; subprocess := subprocess w; calls := n; clock := clock w;
     ticks := ticks w; working_set := working_set w; console := console w |}.

Definition set_ticks (n : nat) (w : world) : world :=
  {| fs := fs w; subprocess := subprocess w; calls := calls w; clock := clock w;
     ticks := n; working_set := working_set w; console := console w |}.

Definition set_console (c : list renderable) (w : world) : world :=
  {| fs := fs w; subprocess := subprocess w; calls := calls w; clock := clock w;
     ticks := ticks w; working_set := working_set w; console := c |}.

(** A computation: it reads and changes the world, and returns or raises. *)
Definition M (A : Type) : Type := world → result A * world.

Definition ret {A} (a : A) : M A := λ w, (Ok a, w).

Definition raise {A} (e : exn) : M A := λ w, (Raise e, w).

Definition bind {A B} (m : M A) (k : A → M B) : M B :=
  λ w, match m w with
       | (Ok a, w') => k a w'
       | (Raise e, w') => (Raise e, w')
       end.

#[global] Instance M_ret : MRet M := @ret.
#[global] Instance M_bind : MBind M := λ A B k m, bind m k.

(** ** The library calls that touch the world *)

(** [console.print(r)] *)
Definition console_print (r : renderable) : M unit :=
  λ w, (Ok tt, set_console (console w ++ [r]) w).

(** [datetime.now()] *)
Definition datetime_now : M datetime :=
  λ w, (Ok (clock w (ticks w)), set_ticks (S (ticks w)) w).

(** [subprocess.run(cmd, capture_output=True, text=True)]; no [check=True],
    so a non-zero exit status raises nothing. *)
Definition subprocess_run : M (Z * str * str) :=
  λ w, match subprocess w (calls w) with
       | Completed rc out err => (Ok (rc, out, err), set_calls (S (calls w)) w)
       | Failed e => (Raise e, set_calls (S (calls w)) w)
       end.

(** [p.exists()] *)
Definition path_exists (p : path) : M bool :=
  λ w, (Ok (bool_decide (is_Some (fs w !! p))), w).

(** [p.read_text()] *)
Definition read_text (p : path) : M str :=
  λ w, match fs w !! p with
       | Some (File content) => (Ok content, w)
       | Some Dir => (Raise IsADirectoryError, w)
       | None => (Raise FileNotFoundError, w)
       end.

(** [p.parent] *)
Definition parent (p : path) : path := removelast p.

(** [open(p, 'w')] followed by writing [text] and closing: the file is
    created or truncated, never appended to. *)
Definition write_file (p : path) (text : str) : M unit :=
  λ w, match fs w !! p with
       | Some Dir => (Raise IsADirectoryError, w)
       | _ =>
           match parent p, fs w !! parent p with
           | [], _ | _, Some Dir => (Ok tt, set_fs (<[p := File text]> (fs w)) w)
           | _, Some (File _) => (Raise NotADirectoryError, w)
           | _, None => (Raise FileNotFoundError, w)
           end
       end.

(** [p.write_text(text)] *)
Definition write_text (p : path) (text : str) : M unit := write_file p text.

(** The directories [mkdir(parents=True, exist_ok=True)] walks through, from
    the working directory [above] down the components [below]. *)
Fixpoint mkdir_walk (above : path) (below : list str) (f : gmap path node)
  : result (gmap path node) :=
  match below with
  | [] => Ok f
  | c :: below' =>
      let p := above ++ [c] in
      match f !! p with
      | None => mkdir_walk p below' (<[p := Dir]> f)
      | Some Dir => mkdir_walk p below' f
      | Some (File _) =>
          Raise (match below' with [] => FileExistsError | _ => NotADirectoryError end)
      end
  end.

(** [p.mkdir(parents=True, exist_ok=True)] *)
Definition mkdir_parents (p : path) : M unit :=
  λ w, match mkdir_walk [] p (fs w) with
       | Ok f => (Ok tt, set_fs f w)
       | Raise e => (Raise e, w)
       end.

(** [str(p)] *)
Definition path_str (p : path) : str := join (lit "/") p.

(** The [width] low decimal digits of [n], zero-padded: ["%02d"], ["%04d"]. *)
Fixpoint zfill (width : nat) (n : N) : str :=
  match width with
  | O => []
  | S width' => zfill width' (n / 10)%N ++ [(48 + n mod 10)%N]
  end.

(** [d.strftime(fmt)] for the directives the script uses. *)
Fixpoint strftime (d : datetime) (fmt : str) : str :=
  match fmt with
  | 37%N :: 89%N :: fmt' => zfill 4 (year d) ++ strftime d fmt'
  | 37%N :: 109%N :: fmt' => zfill 2 (month d) ++ strftime d fmt'
  | 37%N :: 100%N :: fmt' => zfill 2 (day d) ++ strftime d fmt'
  | c :: fmt' => c :: strftime d fmt'
  | [] => []
  end.

(** [d.isoformat()] *)
Definition isoformat (d : datetime) : str :=
  zfill 4 (year d) ++ lit "-" ++ zfill 2 (month d) ++ lit "-" ++ zfill 2 (day d)
  ++ lit "T" ++ zfill 2 (hour d) ++ lit ":" ++ zfill 2 (minute d) ++ lit ":"
  ++ zfill 2 (second d)
  ++ (if (microsecond d =? 0)%N then [] else lit "." ++ zfill 6 (microsecond d)).

(** ** The script *)

Section Script.
Context `{PyLib}.

(** get_installed_packages (lines 21-26): a later entry of the working set
    replaces an earlier one with the same key. *)
Definition get_installed_packages : M (gmap str str) :=
  λ w, (Ok (foldl (λ d pkg, <[pkg.1 := pkg.2]> d) ∅ (working_set w)), w).

(** The loop of check_updates (lines 38-43) over the items still to visit:
    the list [updates] as it stands when the loop ends or an exception
    leaves it. *)
Fixpoint collect (pkgs : list value) (updates : list triple)
  : list triple * option exn :=
  match pkgs with
  | [] => (updates, None)
  | pkg :: pkgs' =>
      match py_getitem pkg (lit "name") with
      | Raise e => (updates, Some e)
      | Ok name =>
          match py_getitem pkg (lit "version") with
          | Raise e => (updates, Some e)
          | Ok version =>
              match py_getitem pkg (lit "latest") with
              | Raise e => (updates, Some e)
              | Ok latest => collect pkgs' (updates ++ [(name, version, latest)])
              end
          end
      end
  end.

(** The body of the [try] (lines 37-43), started with [updates = []]. *)
Definition parse_outdated (stdout : str) : list triple * option exn :=
  match json_loads stdout with
  | None => ([], Some JSONDecodeError)
  | Some packages =>
      match py_iter packages with
      | Raise e => ([], Some e)
      | Ok pkgs => collect pkgs []
      end
  end.

(** check_updates (lines 28-46) *)
Definition check_updates : M (list triple) :=
  result ← subprocess_run;
  let '(_, stdout, _) := result in
  match parse_outdated stdout with
  | (updates, None) => ret updates
  | (updates, Some JSONDecodeError) =>
      console_print (Markup (lit "[red]Error parsing poetry output[/red]"));;
      ret updates
  | (_, Some e) => raise e
  end.

(** The status label of lines 71 and 121: a check mark (U+2713) or a
    clockwise arrow (U+27F3) and its text. *)
Definition status_of (current latest : value) : str :=
  if py_eq current latest then 10003%N :: lit " Up to date"
  else 10227%N :: lit " Update available".

(** One [table.add_row] of lines 70-73. *)
Definition add_row (table : Table) (u : triple) : Table :=
  let '(name, current, latest) := u in
  let status := status_of current latest in
  let color := if py_eq current latest then lit "green" else lit "yellow" in
  {| title := title table; columns := columns table;
     rows := rows table ++
       [[name; current; latest;
         VStr (lit "[" ++ color ++ lit "]" ++ status ++ lit "[/" ++ color ++ lit "]")]] |}.

(** One element of the [packages] list of lines 82-90. *)
Definition package_entry (u : triple) : value :=
  let '(name, current, latest) := u in
  VDict [(lit "name", name); (lit "current", current); (lit "latest", latest);
         (lit "needs_update", VBool (negb (py_eq current latest)))].

(** The [report] dict of lines 80-91. *)
Definition report_of (now : datetime) (updates : list triple) : value :=
  VDict [(lit "timestamp", VStr (isoformat now));
         (lit "packages", VList (package_entry <$> updates))].

(** generate_dependency_report (lines 57-96); [None] is the default
    argument, and a [Path] is always true. *)
Definition generate_dependency_report (output_file : option path) : M unit :=
  installed ← get_installed_packages;
  updates ← check_updates;
  let table :=
    foldl add_row
      {| title := lit "Dependency Status Report";
         columns := [lit "Package"; lit "Current Version";
                     lit "Latest Version"; lit "Status"];
         rows := [] |} updates in
  console_print (Rich table);;
  match output_file with
  | Some output_file =>
      now ← datetime_now;
      let report := report_of now updates in
      mkdir_parents (parent output_file);;
      write_file output_file (json_dumps 2 report);;
      console_print (Markup (lit "\nReport saved to: " ++ path_str output_file))
  | None => ret tt
  end.

(** One table row of line 122. *)
Definition status_row (u : triple) : str :=
  let '(name, current, latest) := u in
  lit "| " ++ py_format name ++ lit " | " ++ py_format current ++ lit " | "
  ++ status_of current latest ++ lit " |".

(** The list [status_section] of lines 110-122. *)
Definition status_section (now : datetime) (updates : list triple) : list str :=
  [lit "## Dependency Status (Updated: " ++ strftime now (lit "%Y-%m-%d") ++ lit ")";
   [];
   lit "### Core Dependencies";
   lit "| Package | Version | Status |";
   lit "|---------|---------|--------|"]
  ++ (status_row <$> updates).

Definition readme_path : path := [lit "README.md"].

(** update_readme_status (lines 98-151) *)
Definition update_readme_status : M unit :=
  found ← path_exists readme_path;
  if negb found then
    console_print (Markup (lit "[red]README.md not found[/red]"))
  else
    installed ← get_installed_packages;
    updates ← check_updates;
    now ← datetime_now;
    let status_section := status_section now updates in
    content ← read_text readme_path;
    let content := splice content start_marker end_marker (join (lit "\n") status_section) in
    write_text readme_path content;;
    console_print (Markup (lit "[green]Updated dependency status in README.md[/green]")).

(** The report path of line 158. *)
Definition report_path_at (now : datetime) : path :=
  [lit "reports"; lit "dependencies";
   lit "dependency_report_" ++ strftime now (lit "%Y%m%d") ++ lit ".json"].

(** main (lines 153-167) *)
Definition main : M unit :=
  console_print (Markup (lit "\n[bold]Document Processing Platform - Dependency Management[/bold]\n"));;
  now ← datetime_now;
  let report_path := report_path_at now in
  generate_dependency_report (Some report_path);;
  update_readme_status;;
  console_print (Markup (lit "\n[green]Dependency management tasks completed:[/green]"));;
  console_print (Markup (lit "1. Generated dependency report: " ++ path_str report_path));;
  console_print (Markup (lit "2. Updated README.md with current status")).

End Script.

(** ** The shape check_updates expects *)

(** An object with the three keys check_updates reads. *)
Definition has_fields (pkg : value) : bool :=
  match pkg with
  | VDict items =>
      bool_decide (is_Some (dict_get items (lit "name")))
      && bool_decide (is_Some (dict_get items (lit "version")))
      && bool_decide (is_Some (dict_get items (lit "latest")))
  | _ => false
  end.

(** The decoded documents on which the loop of check_updates runs to its
    end: a list of such objects, or an empty dict or string, over which the
    loop does not iterate at all. *)
Definition well_shaped (v : value) : bool :=
  match v with
  | VList items => forallb has_fields items
  | VDict [] | VStr [] => true
  | _ => false
  end.

(** The exceptions of a wrong shape. *)
Definition shape_error (e : exn) : bool :=
  match e with
  | KeyError _ | TypeError => true
  | _ => false
  end.

(** The diagnostics of the script. *)
Definition parse_diagnostic : renderable :=
  Markup (lit "[red]Error parsing poetry output[/red]").
Definition readme_diagnostic : renderable :=
  Markup (lit "[red]README.md not found[/red]").

(** [console.print], as a change of the world. *)
Definition printed (r : renderable) (w : world) : world :=
  set_console (console w ++ [r]) w.

(** One command launched, as a change of the world. *)
Definition launched (w : world) : world := set_calls (S (calls w)) w.

(** The table generate_dependency_report prints (lines 64-73). *)
Definition report_table `{PyLib} (updates : list triple) : Table :=
  foldl add_row
    {| title := lit "Dependency Status Report";
       columns := [lit "Package"; lit "Current Version";
                   lit "Latest Version"; lit "Status"];
       rows := [] |} updates.

(** The first thing main prints (line 155). *)
Definition banner : renderable :=
  Markup (lit "\n[bold]Document Processing Platform - Dependency Management[/bold]\n").

(** The call of generate_dependency_report that main makes (lines 155-159),
    from the world in which main starts. *)
Definition report_step `{PyLib} (w : world) : result unit * world :=
  generate_dependency_report (Some (report_path_at (clock w (ticks w))))
    (set_ticks (S (ticks w)) (printed banner w)).

(** The three lines main prints last (lines 165-167). *)
Definition summary (report_path : path) (w : world) : world :=
  printed (Markup (lit "2. Updated README.md with current status"))
    (printed (Markup (lit "1. Generated dependency report: " ++ path_str report_path))
       (printed (Markup (lit "\n[green]Dependency management tasks completed:[/green]")) w)).
(** ** A reference library, to run the script on concrete inputs

    It decodes and encodes JSON documents made of objects, arrays, strings
    without escapes, integers, [true], [false] and [null]; on those it
    agrees with Python's [json] module, and a text that is no JSON at all is
    refused.  Floats and escaped strings are not covered.  The statements
    below hold for every library; this one provides the concrete runs. *)
Module Reference.

Definition is_space (c : char) : bool :=
  bool_decide (c = 32%N ∨ c = 9%N ∨ c = 10%N ∨ c = 13%N).

Fixpoint skip_space (s : str) : str :=
  match s with
  | c :: s' => if is_space c then skip_space s' else s
  | [] => []
  end.

(** The characters of a string literal after its opening quote. *)
Fixpoint scan_string (s acc : str) : option (str * str) :=
  match s with
  | [] => None
  | c :: s' =>
      if bool_decide (c = 34%N) then Some (acc, s')
      else if bool_decide (c = 92%N ∨ (c < 32)%N) then None
      else scan_string s' (acc ++ [c])
  end.

Definition is_digit (c : char) : bool := bool_decide (48 ≤ c ∧ c ≤ 57)%N.

Fixpoint scan_digits (s : str) (acc : Z) : Z * str :=
  match s with
  | c :: s' =>
      if is_digit c then scan_digits s' (10 * acc + (Z.of_N c - 48)) else (acc, s)
  | [] => (acc, [])
  end.

(** An integer literal without its sign: no leading zero, and no fraction
    or exponent after it. *)
Definition scan_int (s : str) : option (Z * str) :=
  match s with
  | c :: s' =>
      if negb (is_digit c) then None
      else
        let '(n, rest) := if bool_decide (c = 48%N) then (0, s') else scan_digits s 0 in
        match rest with
        | d :: _ =>
            if bool_decide (d = 46%N ∨ d = 101%N ∨ d = 69%N) then None
            else Some (n, rest)
        | [] => Some (n, rest)
        end
  | [] => None
  end.

(** [d[key] = v] *)
Fixpoint dict_set (items : list (str * value)) (key : str) (v : value)
  : list (str * value) :=
  match items with
  | [] => [(key, v)]
  | (k, x) :: items' =>
      if decide (k = key) then (k, v) :: items' else (k, x) :: dict_set items' key v
  end.

Fixpoint decode (fuel : nat) (s : str) : option (value * str) :=
  match fuel with
  | O => None
  | S fuel =>
      match s with
      | 34%N :: s' =>
          match scan_string s' [] with
          | Some (x, rest) => Some (VStr x, rest)
          | None => None
          end
      | 91%N :: s' =>
          match skip_space s' with
          | 93%N :: rest => Some (VList [], rest)
          | s'' => decode_items fuel s'' []
          end
      | 123%N :: s' =>
          match skip_space s' with
          | 125%N :: rest => Some (VDict [], rest)
          | s'' => decode_members fuel s'' []
          end
      | 45%N :: s' =>
          match scan_int s' with
          | Some (n, rest) => Some (VInt (- n), rest)
          | None => None
          end
      | _ =>
          if startswith s (lit "null") then Some (VNone, drop 4 s)
          else if startswith s (lit "true") then Some (VBool true, drop 4 s)
          else if startswith s (lit "false") then Some (VBool false, drop 5 s)
          else match scan_int s with
               | Some (n, rest) => Some (VInt n, rest)
               | None => None
               end
      end
  end
with decode_items (fuel : nat) (s : str) (acc : list value)
  : option (value * str) :=
  match fuel with
  | O => None
  | S fuel =>
      match decode fuel s with
      | Some (v, rest) =>
          match skip_space rest with
          | 44%N :: rest' => decode_items fuel (skip_space rest') (acc ++ [v])
          | 93%N :: rest' => Some (VList (acc ++ [v]), rest')
          | _ => None
          end
      | None => None
      end
  end
with decode_members (fuel : nat) (s : str) (acc : list (str * value))
  : option (value * str) :=
  match fuel with
  | O => None
  | S fuel =>
      match s with
      | 34%N :: s' =>
          match scan_string s' [] with
          | Some (key, rest) =>
              match skip_space rest with
              | 58%N :: rest' =>
                  match decode fuel (skip_space rest') with
                  | Some (v, rest'') =>
                      match skip_space rest'' with
                      | 44%N :: r => decode_members fuel (skip_space r) (dict_set acc key v)
                      | 125%N :: r => Some (VDict (dict_set acc key v), r)
                      | _ => None
                      end
                  | None => None
                  end
              | _ => None
              end
          | None => None
          end
      | _ => None
      end
  end.

Definition loads (s : str) : option value :=
  match decode (S (length s)) (skip_space s) with
  | Some (v, rest) =>
      match skip_space rest with
      | [] => Some v
      | _ => None
      end
  | None => None
  end.

(** A decimal integer. *)
Definition decimal (n : Z) : str :=
  lit (DecimalString.NilZero.string_of_int (Z.to_int n)).

Definition hex_digit (n : N) : char :=
  (if n <? 10 then 48 + n else 87 + n)%N.

Definition escape_u (c : N) : str :=
  [92; 117; hex_digit (c / 4096 mod 16); hex_digit (c / 256 mod 16);
   hex_digit (c / 16 mod 16); hex_digit (c mod 16)]%N.

(** One character of a string as [ensure_ascii=True] writes it. *)
Definition escape_char (c : char) : str :=
  if bool_decide (c = 34%N) then [92%N; 34%N]
  else if bool_decide (c = 92%N) then [92%N; 92%N]
  else if bool_decide (c = 10%N) then [92%N; 110%N]
  else if bool_decide (c = 13%N) then [92%N; 114%N]
  else if bool_decide (c = 9%N) then [92%N; 116%N]
  else if bool_decide (c = 8%N) then [92%N; 98%N]
  else if bool_decide (c = 12%N) then [92%N; 102%N]
  else if bool_decide (32 ≤ c ∧ c ≤ 126)%N then [c]
  else if (c <? 65536)%N then escape_u c
  else escape_u (55296 + (c - 65536) / 1024)%N
       ++ escape_u (56320 + (c - 65536) mod 1024)%N.

Definition quote (s : str) : str :=
  [34%N] ++ concat (escape_char <$> s) ++ [34%N].

(** A line break and the indentation of a nesting level. *)
Definition break (indent : Z) (level : nat) : str :=
  LF :: replicate (Z.to_nat indent * level) 32%N.

Fixpoint dumps_at (indent : Z) (level : nat) (v : value) : str :=
  match v with
  | VNone => lit "null"
  | VBool true => lit "true"
  | VBool false => lit "false"
  | VInt n => decimal n
  | VFloat r => r
  | VStr s => quote s
  | VList [] => lit "[]"
  | VList items =>
      lit "[" ++ break indent (S level)
      ++ join (lit "," ++ break indent (S level)) (dumps_at indent (S level) <$> items)
      ++ break indent level ++ lit "]"
  | VDict [] => lit "{}"
  | VDict items =>
      lit "{" ++ break indent (S level)
      ++ join (lit "," ++ break indent (S level))
           ((λ kv, quote kv.1 ++ lit ": " ++ dumps_at indent (S level) kv.2) <$> items)
      ++ break indent level ++ lit "}"
  end.

(** [==] on the objects above: exact on objects of the same type whose dicts
    list their keys in the same order. *)
Fixpoint equal (a b : value) : bool :=
  match a, b with
  | VNone, VNone => true
  | VBool x, VBool y => bool_decide (x = y)
  | VInt x, VInt y => bool_decide (x = y)
  | VFloat x, VFloat y => bool_decide (x = y)
  | VStr x, VStr y => bool_decide (x = y)
  | VList xs, VList ys =>
      (fix go (xs ys : list value) : bool :=
         match xs, ys with
         | [], [] => true
         | x :: xs', y :: ys' => equal x y && go xs' ys'
         | _, _ => false
         end) xs ys
  | VDict xs, VDict ys =>
      (fix go (xs ys : list (str * value)) : bool :=
         match xs, ys with
         | [], [] => true
         | (k, x) :: xs', (l, y) :: ys' => bool_decide (k = l) && equal x y && go xs' ys'
         | _, _ => false
         end) xs ys
  | _, _ => false
  end.

(** [str()] of [None], a bool or a number; a container is printed as its
    JSON text. *)
Definition to_str (v : value) : str :=
  match v with
  | VNone => lit "None"
  | VBool true => lit "True"
  | VBool false => lit "False"
  | _ => dumps_at 0 0 v
  end.

#[global] Instance library : PyLib := {
  json_loads := loads;
  json_dumps indent := dumps_at indent 0;
  eq_other := equal;
  str_other := to_str
}.

End Reference.

(** ** Sample worlds *)

(** A text written with ['] where the document has a double quote. *)
Definition jlit (s : string) : str :=
  (λ c, if bool_decide (c = 39%N) then 34%N else c) <$> lit s.

Definition noon : datetime :=
  {| year := 2024; month := 1; day := 2; hour := 12; minute := 0; second := 0;
     microsecond := 0 |}.

(** A world whose successive commands end as listed (then fail to start),
    with the given files. *)
Definition sample_world (outcomes : list run_outcome) (files : list (path * node))
  : world :=
  {| fs := list_to_map files;
     subprocess := λ n, default (Failed FileNotFoundError) (outcomes !! n);
     calls := 0; clock := λ _, noon; ticks := 0;
     working_set := []; console := [] |}.

(** The document of the second example of the specification, section 8. *)
Definition readme_2024 : str :=
  lit "## Dependency Status (Updated: 2024-01-01)\nold\n\n## Other\nkeep".

(** The section the script renders when poetry reports nothing outdated. *)
Definition empty_section : str :=
  join (lit "\n") (status_section noon []).

(** A README as a first run leaves it: a title and the rendered section. *)
Definition readme_after_run : str :=
  lit "# Title\n\n" ++ empty_section ++ lit "\n\n".

(** Two answers of poetry, and the tuples check_updates makes of them. *)
Definition outdated_alpha : str :=
  jlit "[{'name': 'alpha', 'version': '1.0', 'latest': '2.0'}]".
Definition outdated_beta : str :=
  jlit "[{'name': 'beta', 'version': '3.1', 'latest': '3.1'}]".
Definition alpha : triple :=
  (VStr (lit "alpha"), VStr (lit "1.0"), VStr (lit "2.0")).
Definition beta : triple :=
  (VStr (lit "beta"), VStr (lit "3.1"), VStr (lit "3.1")).

(** A run during which the answer of poetry changes. *)
Definition changing_world : world :=
  sample_world [Completed 0 outdated_alpha []; Completed 0 outdated_beta []]
    [(readme_path, File (lit "# Title\n"))].

(** A run in a directory without README.md. *)
Definition no_readme_world : world :=
  sample_world [Completed 0 outdated_alpha []] [].

(** A run on a machine without poetry. *)
Definition no_poetry_world : world :=
  sample_world [] [(readme_path, File (lit "# Title\n"))].

(** A run in which poetry fails with a message and exit status 1. *)
Definition failing_poetry_world : world :=
  sample_world
    [Completed 1 (lit "Poetry could not find a pyproject.toml file") [];
     Completed 1 (lit "Poetry could not find a pyproject.toml file") []]
    [(readme_path, File (lit "# Title\n"))].

(** A run in which poetry exits with status 1 after printing its list. *)
Definition trusted_failure_world : world :=
  sample_world [Completed 1 outdated_alpha []] [].

(** A run in which poetry prints objects without the expected keys. *)
Definition wrong_shape_world : world :=
  sample_world [Completed 0 (jlit "[{'name': 'alpha'}]") []] [].

(** ** The rest of the script *)

(** check_compatibility (lines 48-55).  The command line,
    [poetry add package@version --dry-run], is the business of the world:
    [subprocess] gives the outcome of the command launched. *)
Definition check_compatibility (package version : str) : M bool :=
  result ← subprocess_run;
  let '(returncode, _, _) := result in
  mret (bool_decide (returncode = 0)).

(** The tuple check_updates makes of one item (lines 39-43), when the item
    has what it takes. *)
Definition entry_of (pkg : value) : option (value * value * value) :=
  match pkg with
  | VDict items =>
      match dict_get items (lit "name"), dict_get items (lit "version"),
            dict_get items (lit "latest") with
      | Some name, Some version, Some latest => Some (name, version, latest)
      | _, _, _ => None
      end
  | _ => None
  end.

(** The exception an item without that raises (lines 40-42): the keys are
    read in the order name, version, latest. *)
Definition item_error (pkg : value) : exn :=
  match pkg with
  | VDict items =>
      match dict_get items (lit "name"), dict_get items (lit "version") with
      | None, _ => KeyError (lit "name")
      | Some _, None => KeyError (lit "version")
      | Some _, Some _ => KeyError (lit "latest")
      end
  | _ => TypeError
  end.

(** The first line of the status section (lines 111-113). *)
Definition heading (now : datetime) : str :=
  lit "## Dependency Status (Updated: " ++ strftime now (lit "%Y-%m-%d") ++ lit ")".

(** The markup of the status cell of a table row (lines 71-73). *)
Definition status_cell (needs_update : bool) : str :=
  if needs_update
  then lit "[yellow]" ++ 10227%N :: lit " Update available" ++ lit "[/yellow]"
  else lit "[green]" ++ 10003%N :: lit " Up to date" ++ lit "[/green]".

(** The last line main prints (line 167). *)
Definition last_line : renderable :=
  Markup (lit "2. Updated README.md with current status").

(** The line update_readme_status prints when it is done (line 151). *)
Definition updated_line : renderable :=
  Markup (lit "[green]Updated dependency status in README.md[/green]").

(** A datetime as [datetime] allows it, as far as the date goes. *)
Definition valid_date (d : datetime) : Prop :=
  (year d < 10000 ∧ month d < 100 ∧ day d < 100)%N.

(** The status section after its heading and blank line (lines 115-122). *)
Definition table_text `{PyLib} (updates : list (value * value * value)) : str :=
  join (lit "\n")
    ([lit "### Core Dependencies"; lit "| Package | Version | Status |";
      lit "|---------|---------|--------|"] ++ (status_row <$> updates)).

(** One row of the table, as add_row appends it. *)
Definition table_row `{PyLib} (u : value * value * value) : list value :=
  let '(name, current, latest) := u in
  [name; current; latest; VStr (status_cell (negb (py_eq current latest)))].

(** The two directories of the report (line 158). *)
Definition reports_dir : path := [lit "reports"].


(** ** More sample worlds *)

(** The same day as [noon], in the evening. *)
Definition evening : datetime :=
  {| year := 2024; month := 1; day := 2; hour := 21; minute := 30; second := 5;
     microsecond := 250 |}.

(** A run in a directory where [reports] is a file. *)
Definition blocked_world : world :=
  sample_world [Completed 0 outdated_alpha []] [(reports_dir, File (lit "notes"))].

(** A run in a directory where README.md is a directory. *)
Definition readme_dir_world : world :=
  sample_world [Completed 0 outdated_alpha []; Completed 0 outdated_alpha []]
    [(readme_path, Dir)].

(** A run during which poetry disappears after the first query. *)
Definition poetry_vanishes_world : world :=
  sample_world [Completed 0 outdated_alpha []]
    [(readme_path, File (lit "# Title\n"))].
(** ** Occurrences, stated without reference to the scan *)

(** [sub] occurs in [s] at index [i]. *)
Definition occurs_at (s sub : str) (i : nat) : Prop :=
  ∃ pre post, s = pre ++ sub ++ post ∧ length pre = i.

(** [i] is the first index [>= from] at which [sub] occurs in [s]. *)
Definition first_occurrence (s sub : str) (from i : nat) : Prop :=
  (from ≤ i)%nat ∧ occurs_at s sub i ∧
  ∀ j, (from ≤ j < i)%nat → ¬ occurs_at s sub j.

(** [sub] occurs nowhere in [s] at or after [from]. *)
Definition no_occurrence (s sub : str) (from : nat) : Prop :=
  ∀ j, (from ≤ j)%nat → ¬ occurs_at s sub j.

(** ** Facts about the scan *)

Lemma startswith_spec s sub :
  startswith s sub = true ↔ ∃ post, s = sub ++ post.
Proof.
  revert s. induction sub as [|c sub IH]; intros s; simpl.
  - split; [intros _; by exists s | done].
  - destruct s as [|d s].
    + split; [done | intros [post Hp]; discriminate].
    + case_decide as Hcd.
      * subst d. rewrite IH. split.
        -- intros [post ->]. by exists post.
        -- intros [post Hp]. injection Hp as ->. by exists post.
      * split; [done | intros [post Hp]; injection Hp as -> _; done].
Qed.

Lemma occurs_at_drop s sub i :
  occurs_at s sub i ↔ (i ≤ length s)%nat ∧ startswith (drop i s) sub = true.
Proof.
  rewrite startswith_spec. split.
  - intros (pre & post & -> & <-). split.
    + rewrite length_app. lia.
    + exists post. by rewrite drop_app_length.
  - intros [Hi [post Hp]]. exists (take i s), post. split.
    + by rewrite <- Hp, take_drop.
    + rewrite length_take. lia.
Qed.

Lemma search_Some sub s pos i :
  search sub s pos = Some i ↔
  ∃ k, i = (pos + k)%nat ∧ (k ≤ length s)%nat ∧
       startswith (drop k s) sub = true ∧
       ∀ j, (j < k)%nat → startswith (drop j s) sub = false.
Proof.
  revert pos. induction s as [|d s IH]; intros pos; simpl.
  - destruct (startswith [] sub) eqn:E.
    + split.
      * intros [= <-]. exists 0%nat. repeat split; [lia | lia | done | lia].
      * intros (k & -> & Hk & _ & _). simpl in Hk.
        replace k with 0%nat by lia. f_equal. lia.
    + split; [done |]. intros (k & _ & Hk & Hs & _). simpl in Hk.
      replace k with 0%nat in Hs by lia. simpl in Hs. congruence.
  - destruct (startswith (d :: s) sub) eqn:E.
    + split.
      * intros [= <-]. exists 0%nat. repeat split; [lia | lia | done | lia].
      * intros (k & -> & _ & _ & Hmin). destruct k as [|k].
        -- f_equal. lia.
        -- specialize (Hmin 0%nat ltac:(lia)). simpl in Hmin. congruence.
    + rewrite IH. split.
      * intros (k & -> & Hk & Hs & Hmin). exists (S k).
        repeat split; [lia | simpl; lia | done |].
        intros [|j] Hj; [done |]. simpl. apply Hmin. lia.
      * intros (k & -> & Hk & Hs & Hmin). destruct k as [|k].
        -- simpl in Hs. congruence.
        -- exists k. repeat split; [lia | simpl in Hk; lia | done |].
           intros j Hj. apply (Hmin (S j)). lia.
Qed.

Lemma search_None sub s pos :
  search sub s pos = None ↔
  ∀ k, (k ≤ length s)%nat → startswith (drop k s) sub = false.
Proof.
  revert pos. induction s as [|d s IH]; intros pos; simpl.
  - destruct (startswith [] sub) eqn:E.
    + split; [done |]. intros H. specialize (H 0%nat ltac:(lia)).
      simpl in H. congruence.
    + split; [| done]. intros _ k Hk. by replace k with 0%nat by lia.
  - destruct (startswith (d :: s) sub) eqn:E.
    + split; [done |]. intros H. specialize (H 0%nat ltac:(lia)).
      simpl in H. congruence.
    + rewrite IH. split.
      * intros H [|k] Hk; [done |]. simpl. apply H. lia.
      * intros H k Hk. apply (H (S k)). lia.
Qed.

(** [find] from an index inside the string, read through occurrences. *)
Lemma find_found s sub from i :
  first_occurrence s sub from i → find s sub (Z.of_nat from) = Z.of_nat i.
Proof.
  intros (Hfrom & Hocc & Hmin). unfold find, len.
  apply occurs_at_drop in Hocc as [Hi Hs].
  destruct (Z.of_nat from <? 0) eqn:E0; [lia |].
  destruct (Z.of_nat (length s) <? Z.of_nat from) eqn:E1; [lia |].
  rewrite Nat2Z.id.
  assert (search sub (drop from s) from = Some i) as ->; [| done].
  apply search_Some. exists (i - from)%nat. rewrite length_drop, !drop_drop.
  repeat split; [lia | lia | by replace (from + (i - from))%nat with i by lia |].
  intros j Hj. rewrite drop_drop.
  destruct (startswith (drop (from + j) s) sub) eqn:E; [| done].
  exfalso. apply (Hmin (from + j)%nat); [lia |].
  apply occurs_at_drop. split; [lia | done].
Qed.

Lemma find_absent s sub from :
  (from ≤ length s)%nat → no_occurrence s sub from →
  find s sub (Z.of_nat from) = -1.
Proof.
  intros Hfrom Hno. unfold find, len.
  destruct (Z.of_nat from <? 0) eqn:E0; [lia |].
  destruct (Z.of_nat (length s) <? Z.of_nat from) eqn:E1; [done |].
  rewrite Nat2Z.id.
  assert (search sub (drop from s) from = None) as ->; [| done].
  apply search_None. intros k Hk. rewrite length_drop in Hk.
  rewrite drop_drop.
  destruct (startswith (drop (from + k) s) sub) eqn:E; [| done].
  exfalso. apply (Hno (from + k)%nat); [lia |].
  apply occurs_at_drop. split; [lia | done].
Qed.

(** The converse reading: what [find] returned determines the occurrences. *)
Lemma find_cases s sub from :
  (from ≤ length s)%nat →
  (find s sub (Z.of_nat from) = -1 ∧ no_occurrence s sub from) ∨
  (∃ i, find s sub (Z.of_nat from) = Z.of_nat i ∧
        first_occurrence s sub from i).
Proof.
  intros Hfrom.
  destruct (search sub (drop from s) from) as [i|] eqn:E.
  - right. exists i. apply search_Some in E as (k & -> & Hk & Hs & Hmin).
    rewrite length_drop in Hk. rewrite drop_drop in Hs.
    assert (first_occurrence s sub from (from + k)) as Hfo.
    { repeat split; [lia | apply occurs_at_drop; split; [lia | done] |].
      intros j Hj [_ Hocc]%occurs_at_drop.
      specialize (Hmin (j - from)%nat ltac:(lia)).
      rewrite drop_drop in Hmin.
      replace (from + (j - from))%nat with j in Hmin by lia. congruence. }
    split; [by apply find_found | done].
  - left. assert (no_occurrence s sub from) as Hno.
    { intros j Hj [Hjl Hocc]%occurs_at_drop.
      eapply search_None with (k := (j - from)%nat) in E.
      - rewrite drop_drop in E.
        replace (from + (j - from))%nat with j in E by lia. congruence.
      - rewrite length_drop. lia. }
    split; [by apply find_absent | done].
Qed.

Lemma find_first s sub from i :
  (from ≤ length s)%nat → find s sub (Z.of_nat from) = Z.of_nat i →
  first_occurrence s sub from i.
Proof.
  intros Hfrom Hf.
  destruct (find_cases s sub from Hfrom) as [[Hn _] | (k & Hk & Hfo)]; [lia |].
  by replace i with k by lia.
Qed.

Lemma find_none s sub from :
  (from ≤ length s)%nat → find s sub (Z.of_nat from) = -1 →
  no_occurrence s sub from.
Proof.
  intros Hfrom Hf.
  destruct (find_cases s sub from Hfrom) as [[_ Hn] | (k & Hk & _)]; [done | lia].
Qed.

Lemma some_first_occurrence s sub i :
  occurs_at s sub i → ∃ k, first_occurrence s sub 0 k.
Proof.
  intros Hocc.
  destruct (find_cases s sub 0 ltac:(lia)) as [[_ Hno] | (k & _ & Hk)].
  - exfalso. apply (Hno i); [lia | done].
  - by exists k.
Qed.

Lemma slice_to_nat s i : (i ≤ length s)%nat → slice_to s (Z.of_nat i) = take i s.
Proof.
  intros Hi. unfold slice_to, clamp, len.
  destruct (Z.of_nat i <? 0) eqn:E; [lia |]. f_equal. lia.
Qed.

Lemma slice_from_nat s i :
  (i ≤ length s)%nat → slice_from s (Z.of_nat i) = drop i s.
Proof.
  intros Hi. unfold slice_from, clamp, len.
  destruct (Z.of_nat i <? 0) eqn:E; [lia |]. f_equal. lia.
Qed.

(** ** The splice, read through occurrences *)

Lemma occurs_at_take s sub j :
  occurs_at s sub j ↔
  (j + length sub ≤ length s)%nat ∧ take (length sub) (drop j s) = sub.
Proof.
  split.
  - intros (pre & post & -> & <-). split.
    + rewrite !length_app. lia.
    + rewrite drop_app_length. by rewrite take_app_length.
  - intros [Hlen Htake]. exists (take j s), (drop (length sub) (drop j s)).
    split.
    + rewrite <- Htake at 1. by rewrite !take_drop.
    + rewrite length_take. lia.
Qed.

Lemma occurs_at_bound s sub j :
  occurs_at s sub j → (j + length sub ≤ length s)%nat.
Proof. by intros [? _]%occurs_at_take. Qed.

(** Two strings that agree on their first [n] characters have the same
    occurrences inside that prefix. *)
Lemma occurs_at_prefix n s1 s2 sub j :
  take n s1 = take n s2 → (n ≤ length s1)%nat → (n ≤ length s2)%nat →
  (j + length sub ≤ n)%nat → occurs_at s1 sub j → occurs_at s2 sub j.
Proof.
  intros Hpre Hn1 Hn2 Hj [_ Htake]%occurs_at_take.
  apply occurs_at_take. split; [lia |].
  rewrite take_drop_commute in Htake |- *.
  replace (take (j + length sub) s2) with (take (j + length sub) (take n s2))
    by (rewrite take_take; f_equal; lia).
  rewrite <- Hpre, take_take.
  by replace ((j + length sub) `min` n)%nat with (j + length sub)%nat by lia.
Qed.

Lemma first_occurrence_unique s sub from i j :
  first_occurrence s sub from i → first_occurrence s sub from j → i = j.
Proof.
  intros (Hi & Hoi & Hmi) (Hj & Hoj & Hmj).
  destruct (Nat.lt_trichotomy i j) as [Hlt | [-> | Hlt]]; [| done |].
  - exfalso. apply (Hmj i); [lia | done].
  - exfalso. apply (Hmi j); [lia | done].
Qed.

Lemma newlines : lit "\n\n" = [LF; LF].
Proof. reflexivity. Qed.

(** The replace branch of the splice, for any markers. *)
Lemma splice_found content start_m end_m section s e :
  first_occurrence content start_m 0 s →
  first_occurrence content end_m (s + length start_m) e ∨
    (no_occurrence content end_m (s + length start_m) ∧ e = length content) →
  splice content start_m end_m section
  = take s content ++ section ++ [LF; LF] ++ drop e content.
Proof.
  intros Hs He. unfold splice.
  pose proof (find_found content start_m 0 s Hs) as Hfs.
  change (Z.of_nat 0) with 0 in Hfs. rewrite Hfs.
  destruct Hs as (_ & Hocc & _). apply occurs_at_bound in Hocc.
  destruct (Z.of_nat s =? -1) eqn:E; [lia |]. clear E.
  replace (Z.of_nat s + len start_m) with (Z.of_nat (s + length start_m))
    by (unfold len; lia).
  rewrite newlines.
  destruct He as [He | [He ->]].
  - rewrite (find_found _ _ _ _ He).
    destruct He as (_ & Hoe & _). apply occurs_at_bound in Hoe.
    destruct (Z.of_nat e =? -1) eqn:E; [lia |].
    rewrite slice_to_nat, slice_from_nat by lia. done.
  - rewrite find_absent by done. simpl. unfold len.
    rewrite slice_to_nat, slice_from_nat by lia. done.
Qed.

(** The append branch of the splice, for any markers. *)
Lemma splice_absent content start_m end_m section :
  no_occurrence content start_m 0 →
  splice content start_m end_m section = content ++ [LF; LF] ++ section.
Proof.
  intros Hno. unfold splice.
  pose proof (find_absent content start_m 0 ltac:(lia) Hno) as Hf.
  change (Z.of_nat 0) with 0 in Hf. by rewrite Hf.
Qed.

(** C2: when the start marker occurs in the document, let [s] be its first
    occurrence and [e] the first occurrence of the end marker at or after
    [s + len(start_marker)], or the end of the document when there is none.
    The splice is the content before [s], the replacement, two newlines and
    the content from [e] on; what lies before [s] and from [e] on is
    unchanged. *)
Theorem splice_replaces_section content start_m end_m section :
  (∃ i, occurs_at content start_m i) →
  ∃ s e,
    first_occurrence content start_m 0 s ∧
    (first_occurrence content end_m (s + length start_m) e ∨
     (no_occurrence content end_m (s + length start_m) ∧ e = length content)) ∧
    let result := splice content start_m end_m section in
    result = take s content ++ section ++ lit "\n\n" ++ drop e content ∧
    take s result = take s content ∧
    drop (s + length section + 2) result = drop e content.
Proof.
  intros [i Hi].
  destruct (some_first_occurrence _ _ _ Hi) as [s Hs].
  pose proof Hs as (_ & Hocc & _). apply occurs_at_bound in Hocc.
  assert (∃ e, first_occurrence content end_m (s + length start_m) e ∨
               (no_occurrence content end_m (s + length start_m)
                ∧ e = length content)) as [e He].
  { destruct (find_cases content end_m (s + length start_m) ltac:(lia))
      as [[_ Hno] | (e & _ & He)]; eauto. }
  exists s, e. split; [done |]. split; [done |]. cbv zeta.
  rewrite (splice_found _ _ _ _ s e Hs He), newlines.
  assert (length (take s content) = s) as Hlen by (rewrite length_take; lia).
  repeat split.
  - rewrite take_app_le by lia. rewrite take_ge by lia. done.
  - replace (take s content ++ section ++ [LF; LF] ++ drop e content)
      with ((take s content ++ section ++ [LF; LF]) ++ drop e content)
      by (by rewrite <- !app_assoc).
    rewrite drop_app_length'; [done |].
    rewrite !length_app, Hlen. simpl. lia.
Qed.

(** The second example of the specification, section 8: only the text up to
    [## Other] is replaced. *)
Lemma splice_replaces_section_witness :
  ∃ s e,
    first_occurrence readme_2024 start_marker 0 s ∧
    (first_occurrence readme_2024 end_marker (s + length start_marker) e ∨
     (no_occurrence readme_2024 end_marker (s + length start_marker)
      ∧ e = length readme_2024)) ∧
    let result := splice readme_2024 start_marker end_marker
                    (lit "## Dependency Status (Updated: 2024-01-02)\nnew") in
    result = take s readme_2024
             ++ lit "## Dependency Status (Updated: 2024-01-02)\nnew"
             ++ lit "\n\n" ++ drop e readme_2024 ∧
    take s result = take s readme_2024 ∧
    drop (s + length (lit "## Dependency Status (Updated: 2024-01-02)\nnew") + 2)
      result = drop e readme_2024.
Proof.
  apply splice_replaces_section.
  exists 0%nat. apply (find_first _ _ 0 0); [simpl; lia | by vm_compute].
Defined.

Lemma splice_second_example :
  splice readme_2024 start_marker end_marker
    (lit "## Dependency Status (Updated: 2024-01-02)\nnew")
  = lit "## Dependency Status (Updated: 2024-01-02)\nnew\n\n## Other\nkeep".
Proof. by vm_compute. Qed.

(** C3: when the start marker occurs nowhere in the document, the splice is
    the document, a blank line (two newlines) and the replacement text. *)
Theorem splice_appends_when_absent content start_m end_m section :
  (∀ i, ¬ occurs_at content start_m i) →
  splice content start_m end_m section = content ++ lit "\n\n" ++ section.
Proof.
  intros Hno. rewrite newlines. apply splice_absent. intros j _. apply Hno.
Qed.

Lemma splice_appends_when_absent_witness :
  splice (lit "# Notes\n") start_marker end_marker (lit "## Dependency Status\nrow")
  = lit "# Notes\n" ++ lit "\n\n" ++ lit "## Dependency Status\nrow".
Proof.
  apply splice_appends_when_absent. intros i.
  apply (find_none (lit "# Notes\n") start_marker 0); [simpl; lia | by vm_compute | lia].
Defined.

(** C4, as the specification states it, fails: on the example document the
    splice does not produce the text the specification gives. *)
Lemma splice_example_differs :
  splice (lit "# Title\n\nSome text.\n") (lit "## Dependency Status") (lit "##")
    (lit "## Dependency Status\nrow1\nrow2")
  ≠ lit "# Title\n\nSome text.\n\n## Dependency Status\nrow1\nrow2\n\n".
Proof. by vm_compute. Qed.

(** C4, amended: on the example document, where the start marker is absent,
    the splice appends two newlines and the replacement, and nothing after
    it. *)
Theorem splice_example :
  splice (lit "# Title\n\nSome text.\n") (lit "## Dependency Status") (lit "##")
    (lit "## Dependency Status\nrow1\nrow2")
  = lit "# Title\n\nSome text.\n\n\n## Dependency Status\nrow1\nrow2".
Proof. by vm_compute. Qed.

(** ** Splicing twice *)

Lemma occurs_at_end_marker s j :
  occurs_at s end_marker j ↔ s !! j = Some 35%N ∧ s !! S j = Some 35%N.
Proof.
  split.
  - intros (pre & post & -> & <-). split.
    + by rewrite lookup_app_r, Nat.sub_diag by lia.
    + rewrite lookup_app_r by lia.
      by replace (S (length pre) - length pre)%nat with 1%nat by lia.
  - intros [H0 H1]. exists (take j s), (drop (S (S j)) s). split.
    + rewrite <- (take_drop_middle s j 35%N H0) at 1. f_equal.
      change (end_marker ++ drop (S (S j)) s)
        with (35%N :: 35%N :: drop (S (S j)) s). f_equal.
      rewrite <- (take_drop_middle (drop (S j) s) 0 35%N).
      * by rewrite drop_drop, Nat.add_1_r.
      * by rewrite lookup_drop, Nat.add_0_r.
    + rewrite length_take. apply lookup_lt_Some in H0. lia.
Qed.

(** After the splice, the replacement starts where the old section did. *)
Lemma start_marker_stays content tail rest s :
  first_occurrence content start_marker 0 s →
  first_occurrence (take s content ++ (start_marker ++ tail) ++ rest)
    start_marker 0 s.
Proof.
  intros (_ & Hocc & Hmin).
  pose proof (occurs_at_bound _ _ _ Hocc) as Hb.
  assert (length (take s content) = s) as Hlen by (rewrite length_take; lia).
  repeat split; [lia | |].
  - exists (take s content), (tail ++ rest). by rewrite <- !app_assoc.
  - intros j Hj Hoj. apply (Hmin j); [lia |].
    destruct Hocc as (pre & post & Hc & Hpre).
    assert (take s content = pre) as Hts
      by (rewrite Hc, <- Hpre; apply take_app_length).
    rewrite Hts in Hoj, Hlen.
    eapply (occurs_at_prefix (s + length start_marker)); [| | | | exact Hoj].
    + transitivity (pre ++ start_marker).
      * replace (pre ++ (start_marker ++ tail) ++ rest)
          with ((pre ++ start_marker) ++ tail ++ rest)
          by (by rewrite <- !app_assoc).
        apply take_app_length'. rewrite length_app. lia.
      * symmetry. rewrite Hc, (app_assoc pre).
        apply take_app_length'. rewrite length_app. lia.
    + rewrite !length_app. lia.
    + lia.
    + lia.
Qed.

(** No end marker starts inside [start_marker ++ tail ++ "\n\n"] after the
    start marker when none starts inside [start_marker ++ tail]. *)
Lemma end_marker_skips_section pre section rest j :
  no_occurrence section end_marker (length start_marker) →
  (length pre + length start_marker ≤ j < length pre + length section + 2)%nat →
  ¬ occurs_at (pre ++ section ++ [LF; LF] ++ rest) end_marker j.
Proof.
  intros Hno Hj [H0 H1]%occurs_at_end_marker.
  rewrite lookup_app_r in H0, H1 by lia.
  destruct (decide (S (j - length pre) < length section)%nat) as [Hin | Hout].
  - apply (Hno (j - length pre)%nat); [lia |].
    apply occurs_at_end_marker.
    rewrite lookup_app_l in H0 by lia.
    replace (S j - length pre)%nat with (S (j - length pre)) in H1 by lia.
    rewrite lookup_app_l in H1 by lia. done.
  - destruct (decide (j - length pre < length section)%nat) as [Hlast | Hpast].
    + replace (S j - length pre)%nat with (length section + 0)%nat in H1 by lia.
      rewrite lookup_app_r in H1 by lia.
      replace (length section + 0 - length section)%nat with 0%nat in H1 by lia.
      simpl in H1. discriminate.
    + rewrite lookup_app_r in H0 by lia.
      destruct (j - length pre - length section)%nat as [|[|k]] eqn:E;
        simpl in H0; [discriminate | discriminate | lia].
Qed.

(** A document that already holds the replacement, followed by the next
    heading or by nothing, is left alone by the splice. *)
Lemma splice_fixed pre tail rest :
  let section := start_marker ++ tail in
  let once := pre ++ section ++ [LF; LF] ++ rest in
  first_occurrence once start_marker 0 (length pre) →
  no_occurrence section end_marker (length start_marker) →
  (∃ post, rest = end_marker ++ post) ∨ rest = [] →
  splice once start_marker end_marker section = once.
Proof.
  intros section once Hs Hno Hrest.
  assert (length section = (length start_marker + length tail)%nat) as Hsec
    by (unfold section; by rewrite length_app).
  assert (∀ j, (length pre + length start_marker ≤ j
                < length pre + length section + 2)%nat →
               ¬ occurs_at once end_marker j) as Hskip.
  { intros j Hj. apply end_marker_skips_section; [done | lia]. }
  assert (once = (pre ++ section ++ [LF; LF]) ++ rest) as Honce
    by (unfold once; by rewrite <- !app_assoc).
  assert (length (pre ++ section ++ [LF; LF])
          = (length pre + length section + 2)%nat) as Hlen3
    by (rewrite !length_app; simpl; lia).
  rewrite (splice_found once start_marker end_marker section (length pre)
             (length pre + length section + 2)); [| done |].
  - assert (take (length pre) once = pre) as ->
      by (unfold once; apply take_app_length).
    assert (drop (length pre + length section + 2) once = rest) as ->
      by (rewrite Honce; by apply drop_app_length').
    done.
  - destruct Hrest as [[post Hpost] | Hnil].
    + left. repeat split; [lia | | intros j Hj; apply Hskip; lia].
      exists (pre ++ section ++ [LF; LF]), post. split; [| done].
      by rewrite Honce, Hpost.
    + right. split.
      * intros j Hj Hoj.
        destruct (decide (j < length pre + length section + 2)%nat)
          as [Hlt | Hge].
        -- apply (Hskip j); [lia | done].
        -- apply occurs_at_bound in Hoj.
           rewrite Honce, Hnil, app_nil_r, Hlen3 in Hoj.
           change (length end_marker) with 2%nat in Hoj. lia.
      * by rewrite Honce, Hnil, app_nil_r, Hlen3.
Qed.

(** The replace branch has a fixed point: whatever the document was, its
    splice is left alone by a further splice, provided the replacement
    starts with the start marker and holds no end marker after it. *)
Lemma splice_found_twice content tail s e :
  let section := start_marker ++ tail in
  no_occurrence section end_marker (length start_marker) →
  first_occurrence content start_marker 0 s →
  first_occurrence content end_marker (s + length start_marker) e ∨
    (no_occurrence content end_marker (s + length start_marker)
     ∧ e = length content) →
  let once := take s content ++ section ++ [LF; LF] ++ drop e content in
  splice once start_marker end_marker section = once.
Proof.
  intros section Hno Hs He once.
  pose proof Hs as (_ & Hocc & _). apply occurs_at_bound in Hocc.
  assert (length (take s content) = s) as Hlen by (rewrite length_take; lia).
  apply splice_fixed; [| done |].
  - rewrite Hlen.
    pose proof (start_marker_stays content tail ([LF; LF] ++ drop e content) s Hs)
      as H1. by rewrite <- app_assoc in H1.
  - destruct He as [(_ & (pre & post & Hc & Hpre) & _) | [_ ->]].
    + left. exists post. rewrite Hc, <- Hpre. by rewrite drop_app_length.
    + right. apply drop_all.
Qed.

(** C1, as the specification states it, fails, in three ways.  When the
    start marker is absent, the first splice ends with the replacement and
    the second adds two newlines.  When the replacement holds an end marker
    after its heading, as the section the script renders does in
    [### Core Dependencies], the second splice stops there and keeps the rest
    of the first.  When the replacement does not begin with the start marker,
    the second splice does not find it and appends it again. *)
Lemma splice_not_idempotent :
  (let section := lit "## Dependency Status\nrow" in
   let once := splice (lit "# Title\n") start_marker end_marker section in
   splice once start_marker end_marker section ≠ once) ∧
  (let once := splice readme_after_run start_marker end_marker empty_section in
   splice once start_marker end_marker empty_section ≠ once) ∧
  (let section := lit "status: fine" in
   let once := splice readme_2024 start_marker end_marker section in
   splice once start_marker end_marker section ≠ once).
Proof. by vm_compute. Qed.

(** What the three second splices leave behind: two more newlines, the table
    of the first run kept after the new section, the replacement twice. *)
Lemma splice_appends_then_pads :
  let section := lit "## Dependency Status\nrow" in
  let once := splice (lit "# Title\n") start_marker end_marker section in
  once = lit "# Title\n\n\n## Dependency Status\nrow" ∧
  splice once start_marker end_marker section = once ++ lit "\n\n".
Proof. by vm_compute. Qed.

Lemma splice_keeps_old_table :
  splice readme_after_run start_marker end_marker empty_section
  = lit "# Title\n\n" ++ empty_section ++ lit "\n\n"
    ++ lit "### Core Dependencies\n| Package | Version | Status |\n|---------|---------|--------|\n\n".
Proof. by vm_compute. Qed.

Lemma splice_loses_unmarked_section :
  let once := splice readme_2024 start_marker end_marker (lit "status: fine") in
  once = lit "status: fine\n\n## Other\nkeep" ∧
  splice once start_marker end_marker (lit "status: fine")
  = once ++ lit "\n\nstatus: fine".
Proof. by vm_compute. Qed.

(** C1, amended: for the markers of the script, a document in which the
    start marker occurs and a replacement that begins with the start marker
    and holds no end marker after it, a second splice changes nothing; the
    spliced document holds, from the first start marker on, exactly the
    replacement and two newlines. *)
Theorem splice_idempotent content section :
  (∃ i, occurs_at content start_marker i) →
  (∃ tail, section = start_marker ++ tail) →
  no_occurrence section end_marker (length start_marker) →
  let once := splice content start_marker end_marker section in
  splice once start_marker end_marker section = once ∧
  ∃ s, first_occurrence once start_marker 0 s ∧
       take (length section + 2) (drop s once) = section ++ lit "\n\n".
Proof.
  intros [i Hi] [tail ->] Hno once.
  destruct (some_first_occurrence _ _ _ Hi) as [s Hs].
  pose proof Hs as (_ & Hocc & _). apply occurs_at_bound in Hocc.
  assert (length (take s content) = s) as Hlen by (rewrite length_take; lia).
  destruct (find_cases content end_marker (s + length start_marker)
              ltac:(lia)) as [[_ He] | (e & _ & He)].
  - assert (once = take s content ++ (start_marker ++ tail) ++ [LF; LF]
                   ++ drop (length content) content) as Honce
      by (apply splice_found; [done | by right]).
    split.
    + rewrite Honce. apply splice_found_twice; [done | done | by right].
    + exists s. split.
      * rewrite Honce. apply start_marker_stays. done.
      * rewrite Honce, drop_app_length', app_assoc by done.
        rewrite newlines. apply take_app_length'.
        rewrite !length_app. change (length [LF; LF]) with 2%nat. lia.
  - assert (once = take s content ++ (start_marker ++ tail) ++ [LF; LF]
                   ++ drop e content) as Honce
      by (apply splice_found; [done | by left]).
    split.
    + rewrite Honce. apply splice_found_twice; [done | done | by left].
    + exists s. split.
      * rewrite Honce. apply start_marker_stays. done.
      * rewrite Honce, drop_app_length', app_assoc by done.
        rewrite newlines. apply take_app_length'.
        rewrite !length_app. change (length [LF; LF]) with 2%nat. lia.
Qed.

Lemma splice_idempotent_witness :
  let section := lit "## Dependency Status (Updated: 2024-01-02)\nnew" in
  let once := splice readme_2024 start_marker end_marker section in
  splice once start_marker end_marker section = once.
Proof.
  intros section once.
  apply (splice_idempotent readme_2024 section).
  - exists 0%nat. apply (find_first _ _ 0 0); [simpl; lia | by vm_compute].
  - by exists (lit " (Updated: 2024-01-02)\nnew").
  - apply find_none; [simpl; lia | by vm_compute].
Defined.

(** ** From a document without the section *)

Lemma occurs_at_lookup (s sub : list N) j k c :
  occurs_at s sub j → sub !! k = Some c → s !! (j + k)%nat = Some c.
Proof.
  intros (pre & post & -> & <-) Hk.
  rewrite lookup_app_r by lia.
  replace (length pre + k - length pre)%nat with k by lia.
  by apply lookup_app_l_Some.
Qed.

Lemma start_marker_one_line : LF ∉ start_marker.
Proof. by apply (bool_decide_unpack _). Qed.

(** The start marker cannot lie across the two newlines of the append
    branch: appended to a document without the marker, a replacement that
    begins with the marker holds its first occurrence. *)
Lemma start_marker_after_append content tail rest :
  no_occurrence content start_marker 0 →
  first_occurrence ((content ++ [LF; LF]) ++ (start_marker ++ tail) ++ rest)
    start_marker 0 (length content + 2).
Proof.
  intros Hno. repeat split; [lia | |].
  - exists (content ++ [LF; LF]), (tail ++ rest). split.
    + by rewrite <- !app_assoc.
    + rewrite length_app. simpl. lia.
  - intros j Hj Hoj.
    destruct (decide (j + length start_marker ≤ length content)%nat)
      as [Hin | Hout].
    + apply (Hno j); [lia |].
      eapply (occurs_at_prefix (length content)); [| | | done | exact Hoj].
      * rewrite <- !app_assoc. by rewrite take_app_length, firstn_all.
      * rewrite !length_app. lia.
      * lia.
    + assert (∃ k, (k < length start_marker)%nat ∧
                   (length content ≤ j + k < length content + 2)%nat)
        as (k & Hk & Hjk).
      { destruct (decide (j ≤ length content)%nat).
        - exists (length content - j)%nat. lia.
        - exists 0%nat. split; [vm_compute |]; lia. }
      destruct (lookup_lt_is_Some_2 start_marker k Hk) as [c Hc].
      pose proof (occurs_at_lookup _ _ _ _ _ Hoj Hc) as Hl.
      rewrite <- !app_assoc in Hl. rewrite lookup_app_r in Hl by lia.
      assert (c = LF) as ->.
      { destruct (j + k - length content)%nat as [|[|n]] eqn:En;
          simpl in Hl; [by injection Hl | by injection Hl | lia]. }
      apply start_marker_one_line. by apply list_elem_of_lookup_2 in Hc.
Qed.

(** Appended to a document without the section, a replacement as in C1 is
    found again by the next splice, which adds the two newlines the append
    branch left out; from then on the document no longer changes. *)
Lemma splice_settles_after_append content tail :
  let section := start_marker ++ tail in
  no_occurrence content start_marker 0 →
  no_occurrence section end_marker (length start_marker) →
  let once := splice content start_marker end_marker section in
  let twice := splice once start_marker end_marker section in
  once = content ++ [LF; LF] ++ section ∧
  twice = once ++ [LF; LF] ∧
  splice twice start_marker end_marker section = twice.
Proof.
  intros section Hno Hsec once twice.
  assert (once = content ++ [LF; LF] ++ section) as Honce
    by (by apply splice_absent).
  assert (splice (content ++ [LF; LF] ++ section ++ [LF; LF])
            start_marker end_marker section
          = content ++ [LF; LF] ++ section ++ [LF; LF]) as Hfixed.
  { pose proof (splice_fixed (content ++ [LF; LF]) tail []) as Hf.
    cbv zeta in Hf. rewrite <- !app_assoc in Hf. apply Hf; [| done | by right].
    pose proof (start_marker_after_append content tail [LF; LF] Hno) as Hs.
    rewrite <- !app_assoc in Hs. rewrite length_app. exact Hs. }
  assert (twice = once ++ [LF; LF]) as Htwice.
  { unfold twice. rewrite Honce.
    pose proof (start_marker_after_append content tail [] Hno) as Hs.
    rewrite app_nil_r, <- app_assoc in Hs.
    rewrite (splice_found _ start_marker end_marker section
               (length content + 2) (length (content ++ [LF; LF] ++ section)));
      [| done |].
    - rewrite drop_all, app_nil_r, (app_assoc content), take_app_length'
        by (rewrite length_app; simpl; lia).
      by rewrite <- !app_assoc.
    - right. split; [| done].
      intros j Hj [H0 H1]%occurs_at_end_marker.
      apply (Hsec (j - (length content + 2))%nat); [lia |].
      apply occurs_at_end_marker.
      rewrite (app_assoc content) in H0, H1.
      rewrite lookup_app_r in H0, H1 by (rewrite length_app; simpl; lia).
      rewrite length_app in H0, H1. simpl in H0, H1.
      by replace (S j - (length content + 2))%nat
        with (S (j - (length content + 2))) in H1 by lia. }
  repeat split; [done | done |].
  rewrite Htwice, Honce, <- !app_assoc. exact Hfixed.
Qed.

(** ** The query *)

Section Query.
Context `{PyLib}.

(** check_updates, one case per outcome of the command and of the parse. *)
Lemma check_updates_run w :
  check_updates w =
  match subprocess w (calls w) with
  | Failed e => (Raise e, launched w)
  | Completed _ out _ =>
      match parse_outdated out with
      | (updates, None) => (Ok updates, launched w)
      | (updates, Some JSONDecodeError) =>
          (Ok updates, printed parse_diagnostic (launched w))
      | (_, Some e) => (Raise e, launched w)
      end
  end.
Proof.
  unfold check_updates, mbind, M_bind, bind, subprocess_run.
  destruct (subprocess w (calls w)) as [rc out err | e]; [| done].
  destruct (parse_outdated out) as [updates [[]|]]; done.
Qed.

(** The loop never raises JSONDecodeError, and runs to its end exactly on
    items that all have the three fields. *)
Lemma collect_shape pkgs updates :
  match collect pkgs updates with
  | (_, None) => forallb has_fields pkgs = true
  | (_, Some e) => forallb has_fields pkgs = false ∧ shape_error e = true
  end.
Proof.
  revert updates. induction pkgs as [|pkg pkgs IH]; intros updates; [done |].
  simpl. destruct pkg as [| | | | |items|items]; simpl; try done.
  destruct (dict_get items (lit "name")) as [name|] eqn:En; [| done].
  destruct (dict_get items (lit "version")) as [version|] eqn:Ev; [| done].
  destruct (dict_get items (lit "latest")) as [latest|] eqn:El; [| done].
  rewrite !bool_decide_eq_true_2 by eauto. simpl. apply IH.
Qed.

(** What the [try] body does with a decoded document. *)
Lemma parse_outdated_shape out v :
  json_loads out = Some v →
  match parse_outdated out with
  | (_, None) => well_shaped v = true
  | (_, Some e) => well_shaped v = false ∧ shape_error e = true
  end.
Proof.
  intros Hv. unfold parse_outdated. rewrite Hv.
  destruct v as [| | | |s|items|items]; simpl; try done.
  - destruct s as [|c s]; done.
  - apply collect_shape.
  - destruct items as [|[k x] items]; done.
Qed.




(** The run stops where the query raises. *)
Lemma main_query_raises w e :
  (∀ w', subprocess w' = subprocess w → calls w' = calls w →
         check_updates w' = (Raise e, launched w')) →
  (main w).1 = Raise e.
Proof.
  intros Hq. unfold main, mbind, M_bind, bind, console_print, datetime_now,
    generate_dependency_report, get_installed_packages. simpl.
  unfold mbind, M_bind, bind. by rewrite Hq.
Qed.

(** C10: valid JSON is not enough.  When stdout decodes to a document of the
    wrong shape (anything but a list of objects that each have the keys
    name, version and latest, or an empty object or string), a KeyError or a
    TypeError leaves check_updates, with no diagnostic, and ends the run. *)
Theorem wrong_shape_escapes w rc out err v :
  subprocess w (calls w) = Completed rc out err →
  json_loads out = Some v →
  well_shaped v = false →
  ∃ e, shape_error e = true ∧
       check_updates w = (Raise e, launched w) ∧
       (main w).1 = Raise e.
Proof.
  intros Hrun Hout Hshape.
  pose proof (parse_outdated_shape out v Hout) as Hp.
  destruct (parse_outdated out) as [updates [e|]] eqn:Ep; [| congruence].
  destruct Hp as [_ He]. exists e.
  assert (∀ w', subprocess w' = subprocess w → calls w' = calls w →
                check_updates w' = (Raise e, launched w')) as Hq.
  { intros w' Hs Hc. rewrite check_updates_run, Hs, Hc, Hrun, Ep.
    by destruct e. }
  repeat split; [done | by apply Hq | by apply main_query_raises].
Qed.

(** What a query leaves of the world: one more command launched, at most
    one diagnostic, and nothing else. *)
Lemma check_updates_world w r w1 :
  check_updates w = (r, w1) →
  fs w1 = fs w ∧ calls w1 = S (calls w) ∧ ticks w1 = ticks w ∧
  subprocess w1 = subprocess w ∧ clock w1 = clock w ∧
  working_set w1 = working_set w ∧
  (console w1 = console w ∨ console w1 = console w ++ [parse_diagnostic]).
Proof.
  rewrite check_updates_run.
  destruct (subprocess w (calls w)) as [rc out err | e].
  - destruct (parse_outdated out) as [updates [[]|]]; intros [= <- <-];
      simpl; auto 10.
  - intros [= <- <-]. simpl. auto 10.
Qed.

(** The answer of a query depends on the world only through the outcome of
    the command it launches. *)
Lemma check_updates_answer w w' :
  subprocess w' = subprocess w → calls w' = calls w →
  (check_updates w').1 = (check_updates w).1.
Proof.
  intros Hs Hc. rewrite !check_updates_run, Hs, Hc.
  destruct (subprocess w (calls w)) as [rc out err | e]; [| done].
  by destruct (parse_outdated out) as [updates [[]|]].
Qed.

End Query.

(** ** The file system *)

(** [mkdir] touches the directories it walks through and nothing else. *)
Lemma mkdir_walk_other (above below : list (list N))
  (f f' : gmap (list (list N)) node) (p : list (list N)) :
  mkdir_walk above below f = Ok f' →
  (∀ k, (0 < k ≤ length below)%nat → p ≠ above ++ take k below) →
  f' !! p = f !! p.
Proof.
  revert above f. induction below as [|c below IH]; intros above f; simpl.
  - by intros [= ->].
  - intros Hwalk Hp.
    assert (p ≠ above ++ [c]) as Hne by (apply (Hp 1%nat); simpl; lia).
    assert (∀ k, (0 < k ≤ length below)%nat → p ≠ (above ++ [c]) ++ take k below)
      as Hp'.
    { intros k Hk. rewrite <- app_assoc. apply (Hp (S k)). simpl. lia. }
    destruct (f !! (above ++ [c])) as [[content|]|] eqn:E.
    + by destruct below.
    + by apply (IH _ _ Hwalk).
    + rewrite (IH _ _ Hwalk Hp'). by apply lookup_insert_ne.
Qed.

(** After [mkdir], every directory walked through is a directory. *)
Lemma mkdir_walk_made (above below : list (list N))
  (f f' : gmap (list (list N)) node) :
  mkdir_walk above below f = Ok f' →
  below ≠ [] → f' !! (above ++ below) = Some Dir.
Proof.
  revert above f. induction below as [|c below IH]; intros above f; [done |].
  simpl. intros Hwalk _.
  destruct below as [|d below].
  - simpl in Hwalk.
    destruct (f !! (above ++ [c])) as [[content|]|] eqn:E; [done | |].
    + by injection Hwalk as <-.
    + injection Hwalk as <-. apply lookup_insert_eq.
  - rewrite (cons_middle c), app_assoc.
    destruct (f !! (above ++ [c])) as [[content|]|] eqn:E; [done | |];
      by apply (IH _ _ Hwalk).
Qed.

(** ** The report *)

Section Report.
Context `{PyLib}.

(** What a successful generate_dependency_report has done. *)
Lemma generate_dependency_report_ok p w w' :
  generate_dependency_report (Some p) w = (Ok tt, w') →
  ∃ updates w1 f,
    check_updates w = (Ok updates, w1) ∧
    mkdir_walk [] (parent p) (fs w) = Ok f ∧
    fs w' = <[p := File (json_dumps 2 (report_of (clock w (ticks w)) updates))]> f ∧
    console w' = console w1 ++ [Rich (report_table updates);
                                Markup (lit "\nReport saved to: " ++ path_str p)] ∧
    calls w' = S (calls w) ∧ ticks w' = S (ticks w) ∧
    subprocess w' = subprocess w ∧ clock w' = clock w ∧
    working_set w' = working_set w.
Proof.
  unfold generate_dependency_report, mbind, M_bind, bind,
    get_installed_packages.
  destruct (check_updates w) as [[updates|e] w1] eqn:Eq; [| done].
  destruct (check_updates_world w _ _ Eq)
    as (Hfs & Hcalls & Hticks & Hsub & Hclock & Hws & _).
  unfold console_print, datetime_now, mkdir_parents. simpl.
  rewrite Hfs, Hticks, Hclock.
  destruct (mkdir_walk [] (parent p) (fs w)) as [f|e] eqn:Ew; [| done].
  unfold write_file. simpl.
  destruct (f !! p) as [[content|]|] eqn:Ep; [| done |];
    (destruct (parent p) as [|c ps] eqn:Epar;
       [| destruct (f !! (c :: ps)) as [[content'|]|] eqn:Epp; try done]);
    intros [= <-]; exists updates, w1, f; simpl; rewrite <- ?app_assoc;
    auto 10.
Qed.

(** And when it succeeds: the query returns, no file stands where a
    directory is needed, and no directory stands where the report goes. *)
Lemma generate_dependency_report_writes (p : list (list N)) w updates w1 f :
  check_updates w = (Ok updates, w1) →
  parent p ≠ [] →
  mkdir_walk [] (parent p) (fs w) = Ok f →
  f !! p ≠ Some Dir →
  ∃ w', generate_dependency_report (Some p) w = (Ok tt, w') ∧
        fs w' = <[p := File (json_dumps 2 (report_of (clock w (ticks w)) updates))]> f.
Proof.
  intros Hq Hpar Hwalk Hp.
  pose proof (mkdir_walk_made [] (parent p) _ _ Hwalk Hpar) as Hdir.
  simpl in Hdir.
  destruct (check_updates_world w _ _ Hq)
    as (Hfs & Hcalls & Hticks & Hsub & Hclock & Hws & _).
  unfold generate_dependency_report, mbind, M_bind, bind,
    get_installed_packages.
  rewrite Hq.
  unfold console_print, datetime_now, mkdir_parents. simpl.
  rewrite Hfs, Hticks, Hclock, Hwalk.
  unfold write_file. simpl. rewrite Hdir.
  destruct (parent p) as [|c ps]; [done |].
  destruct (f !! p) as [[content|]|]; [| done |]; by eexists.
Qed.

(** C5: when generate_dependency_report has written its report, the file
    holds the JSON text of a dict whose packages list has one entry per
    tuple of the query, in the same order; the entry of a tuple of strings
    has the fields name, current, latest and needs_update, the last one true
    exactly when the two version strings differ.  Whatever the file held
    before is gone. *)
Theorem report_reflects_updates p w w' :
  generate_dependency_report (Some p) w = (Ok tt, w') →
  ∃ updates packages,
    (check_updates w).1 = Ok updates ∧
    fs w' !! p = Some (File (json_dumps 2
      (VDict [(lit "timestamp", VStr (isoformat (clock w (ticks w))));
              (lit "packages", VList packages)]))) ∧
    length packages = length updates ∧
    ∀ i name current latest,
      updates !! i = Some (VStr name, VStr current, VStr latest) →
      packages !! i = Some (VDict
        [(lit "name", VStr name); (lit "current", VStr current);
         (lit "latest", VStr latest);
         (lit "needs_update", VBool (bool_decide (current ≠ latest)))]).
Proof.
  intros (updates & w1 & f & Hq & _ & Hfs & _)%generate_dependency_report_ok.
  exists updates, (package_entry <$> updates).
  repeat split.
  - by rewrite Hq.
  - rewrite Hfs. apply lookup_insert_eq.
  - apply length_fmap.
  - intros i name current latest Hi.
    rewrite list_lookup_fmap, Hi. simpl. do 5 f_equal.
    unfold package_entry, py_eq. do 2 f_equal.
    by destruct (decide (current = latest));
      [rewrite bool_decide_eq_true_2, bool_decide_eq_false_2 by auto
      | rewrite bool_decide_eq_false_2, bool_decide_eq_true_2 by auto].
Qed.

End Report.

(** ** The README and the run *)

(** Projections of an updated world, without touching the strings. *)
Ltac world_simpl :=
  repeat progress
    cbn [fs calls ticks clock subprocess console working_set
         set_fs set_calls set_ticks set_console printed launched summary
         fst snd].

Section Run.
Context `{PyLib}.

(** The report lies under [reports/]: writing it leaves README.md alone. *)
Lemma report_leaves_readme (now : datetime)
  (f f' : gmap (list (list N)) node) (text : list N) :
  mkdir_walk [] (parent (report_path_at now)) f = Ok f' →
  <[report_path_at now := File text]> f' !! readme_path = f !! readme_path.
Proof.
  intros Hwalk. rewrite lookup_insert_ne by done.
  apply (mkdir_walk_other _ _ _ _ _ Hwalk).
  intros [|[|[|k]]] Hk; simpl in *; (done || lia).
Qed.

(** Without a README the update step prints its diagnostic and returns. *)
Lemma update_readme_status_missing w :
  fs w !! readme_path = None →
  update_readme_status w = (Ok tt, printed readme_diagnostic w).
Proof.
  intros Hno. unfold update_readme_status, mbind, M_bind, bind, path_exists.
  by rewrite Hno.
Qed.

(** What a successful update of an existing README has done. *)
Lemma update_readme_status_ok w w' content :
  fs w !! readme_path = Some (File content) →
  update_readme_status w = (Ok tt, w') →
  ∃ updates w1,
    check_updates w = (Ok updates, w1) ∧
    fs w' = <[readme_path := File (splice content start_marker end_marker
               (join (lit "\n") (status_section (clock w (ticks w)) updates)))]>
            (fs w) ∧
    calls w' = S (calls w) ∧ ticks w' = S (ticks w).
Proof.
  intros Hfile.
  unfold update_readme_status, mbind, M_bind, bind, path_exists,
    get_installed_packages.
  rewrite Hfile. rewrite bool_decide_eq_true_2 by eauto. cbn [negb].
  destruct (check_updates w) as [[updates|e] w1] eqn:Eq; [| done].
  destruct (check_updates_world w _ _ Eq)
    as (Hfs & Hcalls & Hticks & Hsub & Hclock & Hws & _).
  unfold datetime_now, read_text, write_text, write_file, console_print.
  change (parent readme_path) with (@nil (list N)).
  repeat progress (world_simpl; rewrite ?Hfs, ?Hfile, ?Hticks, ?Hclock).
  intros [= <-]. exists updates, w1. world_simpl. rewrite ?Hfs. auto.
Qed.

(** main, split at its two steps. *)
Lemma main_steps w :
  main w =
  match report_step w with
  | (Raise e, w1) => (Raise e, w1)
  | (Ok _, w1) =>
      match update_readme_status w1 with
      | (Raise e, w2) => (Raise e, w2)
      | (Ok _, w2) => (Ok tt, summary (report_path_at (clock w (ticks w))) w2)
      end
  end.
Proof.
  unfold main, report_step, mbind, M_bind, bind, console_print, datetime_now.
  simpl. fold (printed banner w).
  destruct (generate_dependency_report _ _) as [[[]|e] w1]; [| done].
  by destruct (update_readme_status w1) as [[[]|e] w2].
Qed.

(** C9: when README.md does not exist, the update step prints its
    diagnostic and returns without creating or changing any file, and it
    takes nothing from the rest of the run.  The run reaches that step when
    the report generation before it has returned; the report is then on
    disk, README.md is still absent, the run completes normally and prints
    its summary after the diagnostic.  The only way such a run ends early is
    an exception of the report generation itself. *)
Theorem missing_readme_is_skipped w :
  fs w !! readme_path = None →
  let report_path := report_path_at (clock w (ticks w)) in
  match report_step w with
  | (Ok _, w1) =>
      update_readme_status w1 = (Ok tt, printed readme_diagnostic w1) ∧
      main w = (Ok tt, summary report_path (printed readme_diagnostic w1)) ∧
      fs (main w).2 = fs w1 ∧
      fs w1 !! readme_path = None ∧
      (∃ text, fs w1 !! report_path = Some (File text)) ∧
      calls (main w).2 = S (calls w)
  | (Raise e, w1) => main w = (Raise e, w1)
  end.
Proof.
  intros Hno report_path.
  destruct (report_step w) as [[[]|e] w1] eqn:Hstep;
    [| by rewrite main_steps, Hstep].
  pose proof Hstep as Hok. unfold report_step in Hok.
  apply generate_dependency_report_ok in Hok
    as (updates & wq & f & _ & Hwalk & Hfs & _ & Hcalls & _).
  simpl in Hwalk, Hcalls.
  assert (fs w1 !! readme_path = None) as Hno1.
  { rewrite Hfs, <- Hno. by apply report_leaves_readme. }
  pose proof (update_readme_status_missing w1 Hno1) as Hupd.
  assert (main w = (Ok tt, summary report_path (printed readme_diagnostic w1)))
    as Hmain by (by rewrite main_steps, Hstep, Hupd).
  repeat split; [done | done | by rewrite Hmain | done | | by rewrite Hmain].
  eexists. rewrite Hfs. apply lookup_insert_eq.
Qed.

(** C8, amended: a run that completes queries the command twice, once for
    the report and once for the README.  The report holds the tuples of the
    first answer and the README section those of the second, each in the
    order of its own answer; the two sequences are the same when the two
    answers are. *)
Theorem report_and_readme_follow_their_queries w w' content :
  fs w !! readme_path = Some (File content) →
  main w = (Ok tt, w') →
  ∃ first second,
    (check_updates w).1 = Ok first ∧
    (check_updates (launched w)).1 = Ok second ∧
    calls w' = S (S (calls w)) ∧
    fs w' !! report_path_at (clock w (ticks w))
      = Some (File (json_dumps 2
          (VDict [(lit "timestamp", VStr (isoformat (clock w (S (ticks w)))));
                  (lit "packages", VList (package_entry <$> first))]))) ∧
    fs w' !! readme_path
      = Some (File (splice content start_marker end_marker
          (join (lit "\n")
             ([lit "## Dependency Status (Updated: "
                 ++ strftime (clock w (S (S (ticks w)))) (lit "%Y-%m-%d") ++ lit ")";
               []; lit "### Core Dependencies";
               lit "| Package | Version | Status |";
               lit "|---------|---------|--------|"]
              ++ (status_row <$> second))))).
Proof.
  intros Hfile. rewrite main_steps.
  destruct (report_step w) as [[[]|e] w1] eqn:Hstep; [| done].
  destruct (update_readme_status w1) as [[[]|e] w2] eqn:Hupd; [| done].
  intros [= <-]. unfold report_step in Hstep.
  apply generate_dependency_report_ok in Hstep
    as (first & wq & f & Hq1 & Hwalk & Hfs1 & _ & Hcalls1 & Hticks1 & Hsub1
        & Hclock1 & _).
  simpl in Hwalk, Hfs1, Hcalls1, Hticks1, Hsub1, Hclock1.
  assert (fs w1 !! readme_path = Some (File content)) as Hfile1.
  { rewrite Hfs1, <- Hfile. by apply report_leaves_readme. }
  apply (update_readme_status_ok _ _ _ Hfile1) in Hupd
    as (second & wq' & Hq2 & Hfs2 & Hcalls2 & _).
  exists first, second. repeat split.
  - rewrite <- (check_updates_answer w
        (set_ticks (S (ticks w)) (printed banner w)) eq_refl eq_refl).
    by rewrite Hq1.
  - rewrite <- (check_updates_answer (launched w) w1 Hsub1 Hcalls1).
    by rewrite Hq2.
  - simpl. by rewrite Hcalls2, Hcalls1.
  - simpl. rewrite Hfs2, lookup_insert_ne by done.
    rewrite Hfs1. apply lookup_insert_eq.
  - simpl. rewrite Hfs2, Hticks1, Hclock1. apply lookup_insert_eq.
Qed.

End Run.

(** ** Concrete runs *)

Lemma report_reflects_updates_witness :
  ∃ updates packages,
    (check_updates no_readme_world).1 = Ok updates ∧
    fs (generate_dependency_report (Some (report_path_at noon)) no_readme_world).2
      !! report_path_at noon
    = Some (File (json_dumps 2
        (VDict [(lit "timestamp", VStr (isoformat noon));
                (lit "packages", VList packages)]))) ∧
    length packages = length updates ∧
    ∀ i name current latest,
      updates !! i = Some (VStr name, VStr current, VStr latest) →
      packages !! i = Some (VDict
        [(lit "name", VStr name); (lit "current", VStr current);
         (lit "latest", VStr latest);
         (lit "needs_update", VBool (bool_decide (current ≠ latest)))]).
Proof.
  apply (report_reflects_updates (report_path_at noon) no_readme_world).
  vm_compute; repeat split.
Defined.

(** The report of that run, as it lies on disk. *)
Lemma report_on_disk :
  fs (main no_readme_world).2 !! report_path_at noon
  = Some (File (jlit "{\n  'timestamp': '2024-01-02T12:00:00',\n  'packages': [\n    {\n      'name': 'alpha',\n      'current': '1.0',\n      'latest': '2.0',\n      'needs_update': true\n    }\n  ]\n}")).
Proof. vm_compute; repeat split. Qed.



(** A non-zero exit status alone is no failure for the query: the list the
    command printed is used, and nothing is reported. *)
Lemma exit_status_is_ignored :
  check_updates trusted_failure_world = (Ok [alpha], launched trusted_failure_world).
Proof. vm_compute; repeat split. Qed.


(** A whole run with a failing poetry: it completes, with an empty report
    and an empty table in the README. *)
Lemma failing_poetry_run_completes :
  (main failing_poetry_world).1 = Ok tt ∧
  fs (main failing_poetry_world).2 !! readme_path
  = Some (File (lit "# Title\n\n\n" ++ empty_section)).
Proof. vm_compute; repeat split. Qed.

(** C8, as the specification states it, fails: the command is run twice,
    and when its answer changes in between, the report lists one package
    and the README another. *)
Lemma report_and_readme_disagree :
  (main changing_world).1 = Ok tt ∧
  calls (main changing_world).2 = 2%nat ∧
  fs (main changing_world).2 !! report_path_at noon
  = Some (File (json_dumps 2 (report_of noon [alpha]))) ∧
  fs (main changing_world).2 !! readme_path
  = Some (File (splice (lit "# Title\n") start_marker end_marker
                  (join (lit "\n") (status_section noon [beta])))).
Proof. vm_compute; repeat split. Qed.

Lemma report_and_readme_follow_their_queries_witness :
  ∃ first second,
    (check_updates changing_world).1 = Ok first ∧
    (check_updates (launched changing_world)).1 = Ok second ∧
    calls (main changing_world).2 = 2%nat ∧
    fs (main changing_world).2 !! report_path_at noon
      = Some (File (json_dumps 2
          (VDict [(lit "timestamp", VStr (isoformat noon));
                  (lit "packages", VList (package_entry <$> first))]))) ∧
    fs (main changing_world).2 !! readme_path
      = Some (File (splice (lit "# Title\n") start_marker end_marker
          (join (lit "\n")
             ([lit "## Dependency Status (Updated: "
                 ++ strftime noon (lit "%Y-%m-%d") ++ lit ")";
               []; lit "### Core Dependencies";
               lit "| Package | Version | Status |";
               lit "|---------|---------|--------|"]
              ++ (status_row <$> second))))).
Proof.
  apply (report_and_readme_follow_their_queries changing_world
           (main changing_world).2 (lit "# Title\n")); vm_compute; repeat split.
Defined.

Lemma missing_readme_is_skipped_witness :
  update_readme_status (report_step no_readme_world).2
  = (Ok tt, printed readme_diagnostic (report_step no_readme_world).2) ∧
  main no_readme_world
  = (Ok tt, summary (report_path_at noon)
              (printed readme_diagnostic (report_step no_readme_world).2)) ∧
  fs (main no_readme_world).2 = fs (report_step no_readme_world).2 ∧
  fs (report_step no_readme_world).2 !! readme_path = None ∧
  (∃ text, fs (report_step no_readme_world).2 !! report_path_at noon
           = Some (File text)) ∧
  calls (main no_readme_world).2 = 1%nat.
Proof.
  pose proof (missing_readme_is_skipped no_readme_world ltac:(vm_compute; reflexivity))
    as Hskip.
  cbv zeta in Hskip.
  assert (report_step no_readme_world
          = (Ok tt, (report_step no_readme_world).2)) as Hstep
    by (vm_compute; reflexivity).
  revert Hskip Hstep.
  destruct (report_step no_readme_world) as [[[]|e] w1];
    [intros Hskip _; exact Hskip | by intros _ [=]].
Defined.

Lemma wrong_shape_escapes_witness :
  ∃ e, shape_error e = true ∧
       check_updates wrong_shape_world = (Raise e, launched wrong_shape_world) ∧
       (main wrong_shape_world).1 = Raise e.
Proof.
  apply (wrong_shape_escapes wrong_shape_world 0 (jlit "[{'name': 'alpha'}]") []
           (VList [VDict [(lit "name", VStr (lit "alpha"))]])); vm_compute; repeat split.
Defined.

(** The exception of that run is the KeyError of the first missing key; a
    document that is not a list at all ends in a TypeError. *)
Lemma missing_key_example :
  (check_updates wrong_shape_world).1 = Raise (KeyError (lit "version")) ∧
  (check_updates (sample_world [Completed 0 (lit "42") []] [])).1 = Raise TypeError ∧
  (check_updates (sample_world [Completed 0 (lit "{}") []] [])).1 = Ok [].
Proof. vm_compute; repeat split. Qed.

(** * Further properties of the script *)

(** ** The splice keeps the ends of the document *)

Lemma splice_parts (content start_m end_m section : list N) :
  ∃ before after,
    splice content start_m end_m section = before ++ section ++ after ∧
    (before `prefix_of` content ∨ before = content ++ lit "\n\n") ∧
    (after = [] ∨ ∃ ending, after = lit "\n\n" ++ ending ∧ ending `suffix_of` content).
Proof.
  destruct (find_cases content start_m 0 ltac:(lia)) as [[_ Hno] | (s & _ & Hs)].
  - exists (content ++ lit "\n\n"), []. split; [| by auto].
    rewrite (splice_absent _ _ _ _ Hno), newlines, app_nil_r.
    by rewrite <- app_assoc.
  - pose proof Hs as (_ & Hocc & _). apply occurs_at_bound in Hocc.
    assert (∃ e, first_occurrence content end_m (s + length start_m) e ∨
                 (no_occurrence content end_m (s + length start_m)
                  ∧ e = length content)) as [e He].
    { destruct (find_cases content end_m (s + length start_m) ltac:(lia))
        as [[_ Hno] | (e & _ & He)]; eauto. }
    exists (take s content), (lit "\n\n" ++ drop e content).
    split; [by rewrite (splice_found _ _ _ _ s e Hs He) |]. split.
    + left. apply prefix_take.
    + right. eexists. split; [done |]. apply suffix_drop.
Qed.

(** X1: the replacement is always in the result.  Before it stands a beginning
    of the document (or the whole document and two newlines); after it
    nothing, or two newlines and an end of the document.  The splice thus
    never reorders the document and never drops anything but one stretch in
    its middle. *)
Theorem splice_keeps_the_ends (content start_m end_m section : list N) :
  ∃ before after,
    splice content start_m end_m section = before ++ section ++ after ∧
    (before `prefix_of` content ∨ before = content ++ lit "\n\n") ∧
    (after = [] ∨ ∃ ending, after = lit "\n\n" ++ ending ∧ ending `suffix_of` content).
Proof. apply splice_parts. Qed.

(** ** A second run on the same day *)

Lemma zfill_digits width n : Forall (λ c, 48 ≤ c ≤ 57)%N (zfill width n).
Proof.
  revert n. induction width as [|width IH]; intros n; simpl; [constructor |].
  apply Forall_app. split; [apply IH |].
  apply Forall_singleton. pose proof (N.mod_upper_bound n 10 ltac:(lia)) as Hr. revert Hr. generalize (n `mod` 10)%N. intros r Hr. lia.
Qed.

Lemma zfill_length width n : length (zfill width n) = width.
Proof.
  revert n. induction width as [|width IH]; intros n; simpl; [done |].
  rewrite length_app, IH. simpl. lia.
Qed.

Lemma strftime_dashed now :
  strftime now (lit "%Y-%m-%d")
  = zfill 4 (year now) ++ 45%N :: zfill 2 (month now) ++ 45%N :: zfill 2 (day now).
Proof. by rewrite <- (app_nil_r (zfill 2 (day now))). Qed.

Lemma strftime_packed now :
  strftime now (lit "%Y%m%d")
  = zfill 4 (year now) ++ zfill 2 (month now) ++ zfill 2 (day now).
Proof. by rewrite <- (app_nil_r (zfill 2 (day now))). Qed.

(** The heading is the start marker and a date without any [#]. *)
Lemma heading_shape now :
  ∃ date, heading now = start_marker ++ date ∧ 35%N ∉ date.
Proof.
  exists (lit " (Updated: " ++ strftime now (lit "%Y-%m-%d") ++ lit ")").
  split; [reflexivity |].
  rewrite strftime_dashed.
  assert (∀ width n, 35%N ∉ zfill width n) as Hz.
  { intros width n Hin. eapply Forall_forall in Hin; [| apply zfill_digits].
    simpl in Hin. lia. }
  repeat first [apply Hz | apply not_elem_of_app; split
                | apply not_elem_of_cons; split; [done |]];
    by apply (bool_decide_unpack _).
Qed.


Section Rerun.
Context `{PyLib}.

Lemma section_shape now updates :
  join (lit "\n") (status_section now updates)
  = heading now ++ [LF; LF] ++ table_text updates.
Proof.
  unfold status_section, table_text, heading. cbn [join app].
  rewrite <- !app_assoc. reflexivity.
Qed.



End Rerun.

(** ** More on the query *)

Section QueryMore.
Context `{PyLib}.

Lemma collect_entries pkgs updates tuples :
  entry_of <$> pkgs = Some <$> tuples →
  collect pkgs updates = (updates ++ tuples, None).
Proof.
  revert updates tuples.
  induction pkgs as [|pkg pkgs IH]; intros updates [|t tuples]; try done.
  - by rewrite app_nil_r.
  - intros [= Ht Hrest]. simpl.
    destruct pkg as [| | | | |items|items]; try done. simpl in *.
    destruct (dict_get items (lit "name")) as [name|]; [| done].
    destruct (dict_get items (lit "version")) as [version|]; [| done].
    destruct (dict_get items (lit "latest")) as [latest|]; [| done].
    injection Ht as <-. rewrite (IH _ _ Hrest). by rewrite <- app_assoc.
Qed.

Lemma collect_stops good bad rest updates tuples :
  entry_of <$> good = Some <$> tuples →
  entry_of bad = None →
  collect (good ++ bad :: rest) updates
  = (updates ++ tuples, Some (item_error bad)).
Proof.
  revert updates tuples.
  induction good as [|pkg good IH]; intros updates [|t tuples]; try done.
  - intros _ Hbad. rewrite app_nil_r. simpl.
    destruct bad as [| | | | |items|items]; try done. simpl in *.
    destruct (dict_get items (lit "name")) as [name|]; [| done].
    destruct (dict_get items (lit "version")) as [version|]; [| done].
    by destruct (dict_get items (lit "latest")) as [latest|].
  - intros [= Ht Hrest] Hbad. simpl.
    destruct pkg as [| | | | |items|items]; try done. simpl in *.
    destruct (dict_get items (lit "name")) as [name|]; [| done].
    destruct (dict_get items (lit "version")) as [version|]; [| done].
    destruct (dict_get items (lit "latest")) as [latest|]; [| done].
    injection Ht as <-. rewrite (IH _ _ Hrest Hbad). by rewrite <- app_assoc.
Qed.

(** X3: when poetry prints a list of objects that all have the keys name,
    version and latest, check_updates returns one tuple per object, in the
    order of the list, made of the values under those three keys; any other
    key is ignored and nothing is printed. *)
Theorem check_updates_lists_packages w rc out err items tuples :
  subprocess w (calls w) = Completed rc out err →
  json_loads out = Some (VList items) →
  entry_of <$> items = Some <$> tuples →
  check_updates w = (Ok tuples, launched w).
Proof.
  intros Hrun Hout Hitems. rewrite check_updates_run, Hrun.
  unfold parse_outdated. rewrite Hout. simpl.
  by rewrite (collect_entries _ _ _ Hitems).
Qed.

(** X4: the first object of the list that lacks a key, or is no object, decides
    the exception: KeyError for the first missing key in the order name,
    version, latest, TypeError for an item that is no object.  The tuples
    of the objects before it are lost with it. *)
Theorem check_updates_first_bad_item w rc out err good bad rest tuples :
  subprocess w (calls w) = Completed rc out err →
  json_loads out = Some (VList (good ++ bad :: rest)) →
  entry_of <$> good = Some <$> tuples →
  entry_of bad = None →
  check_updates w = (Raise (item_error bad), launched w).
Proof.
  intros Hrun Hout Hgood Hbad. rewrite check_updates_run, Hrun.
  unfold parse_outdated. rewrite Hout. simpl.
  rewrite (collect_stops _ _ _ _ _ Hgood Hbad).
  destruct bad as [| | | | |items|items]; try done. simpl.
  destruct (dict_get items (lit "name")); [| done].
  by destruct (dict_get items (lit "version")).
Qed.

(** X5: the exit status and stderr of the command play no part: two runs of the
    command with the same stdout give the same answer, a list or an
    exception. *)
Theorem check_updates_reads_stdout_only w w' rc rc' out err err' :
  subprocess w (calls w) = Completed rc out err →
  subprocess w' (calls w') = Completed rc' out err' →
  (check_updates w).1 = (check_updates w').1.
Proof.
  intros Hrun Hrun'. rewrite !check_updates_run, Hrun, Hrun'.
  by destruct (parse_outdated out) as [updates [[]|]].
Qed.

(** X6: whatever its outcome, a query launches exactly one command, reads no
    clock, changes no file, and prints nothing or its one diagnostic. *)
Theorem check_updates_footprint w :
  let w1 := (check_updates w).2 in
  calls w1 = S (calls w) ∧ ticks w1 = ticks w ∧ fs w1 = fs w ∧
  (console w1 = console w ∨ console w1 = console w ++ [parse_diagnostic]).
Proof.
  destruct (check_updates w) as [r w1] eqn:Eq.
  destruct (check_updates_world w r w1 Eq) as (? & ? & ? & _ & _ & _ & ?).
  by simpl.
Qed.

(** check_compatibility answers by the exit status alone, whatever the
    command printed, and raises only when the command cannot be started; it
    prints nothing and changes no file. *)
Lemma check_compatibility_run package version w :
  check_compatibility package version w =
  match subprocess w (calls w) with
  | Completed rc _ _ => (Ok (bool_decide (rc = 0)), launched w)
  | Failed e => (Raise e, launched w)
  end.
Proof.
  unfold check_compatibility, mbind, M_bind, bind, subprocess_run.
  by destruct (subprocess w (calls w)).
Qed.

End QueryMore.

(** ** More on the report *)

Section ReportMore.
Context `{PyLib}.

Lemma add_rows table updates :
  rows (foldl add_row table updates) = rows table ++ (table_row <$> updates) ∧
  title (foldl add_row table updates) = title table ∧
  columns (foldl add_row table updates) = columns table.
Proof.
  revert table. induction updates as [|[[name current] latest] updates IH];
    intros table; cbn [foldl fmap list_fmap].
  - by rewrite app_nil_r.
  - destruct (IH (add_row table (name, current, latest))) as (-> & -> & ->).
    cbn [add_row rows title columns]. rewrite <- app_assoc.
    repeat split. do 2 f_equal.
    unfold table_row, status_of, status_cell.
    by destruct (py_eq current latest).
Qed.

(** X7: the table on the console and the packages of the report say the same
    about every tuple of the query, in the same order: the row of a tuple
    shows the yellow [Update available] exactly when the entry of the tuple
    has needs_update true, and the green [Up to date] otherwise. *)
Theorem table_agrees_with_report updates :
  length (rows (report_table updates)) = length updates ∧
  ∀ i name current latest,
    updates !! i = Some (name, current, latest) →
    ∃ needs_update,
      rows (report_table updates) !! i
      = Some [name; current; latest; VStr (status_cell needs_update)] ∧
      (package_entry <$> updates) !! i
      = Some (VDict [(lit "name", name); (lit "current", current);
                     (lit "latest", latest);
                     (lit "needs_update", VBool needs_update)]).
Proof.
  unfold report_table.
  destruct (add_rows {| title := lit "Dependency Status Report";
                        columns := [lit "Package"; lit "Current Version";
                                    lit "Latest Version"; lit "Status"];
                        rows := [] |} updates) as (-> & _ & _).
  split; [simpl; by rewrite length_fmap |].
  intros i name current latest Hi.
  exists (negb (py_eq current latest)). simpl.
  by rewrite !list_lookup_fmap, Hi.
Qed.

(** generate_dependency_report, one case per step that can raise. *)
Lemma generate_dependency_report_run (p : list (list N)) w :
  generate_dependency_report (Some p) w =
  match check_updates w with
  | (Raise e, w1) => (Raise e, w1)
  | (Ok updates, w1) =>
      let w2 := set_ticks (S (ticks w1))
                  (printed (Rich (report_table updates)) w1) in
      match mkdir_walk [] (parent p) (fs w1) with
      | Raise e => (Raise e, w2)
      | Ok f =>
          match write_file p
                  (json_dumps 2 (report_of (clock w1 (ticks w1)) updates))
                  (set_fs f w2) with
          | (Ok _, w3) =>
              (Ok tt, printed (Markup (lit "\nReport saved to: " ++ path_str p)) w3)
          | (Raise e, w3) => (Raise e, w3)
          end
      end
  end.
Proof.
  unfold generate_dependency_report, mbind, M_bind, bind,
    get_installed_packages.
  destruct (check_updates w) as [[updates|e] w1]; [| done].
  unfold console_print, datetime_now, mkdir_parents. world_simpl.
  destruct (mkdir_walk [] (parent p) (fs w1)) as [f|e]; [| done].
  by destruct (write_file _ _ _) as [[[]|e] w3].
Qed.


End ReportMore.

(** ** The report and the file system *)

(** [mkdir] keeps what exists, and what it adds is a directory on its way. *)
Lemma mkdir_walk_footprint (above below : list (list N))
  (f f' : gmap (list (list N)) node) (q : list (list N)) :
  mkdir_walk above below f = Ok f' →
  f' !! q = f !! q ∨
  (f !! q = None ∧ f' !! q = Some Dir ∧
   ∃ k, (0 < k ≤ length below)%nat ∧ q = above ++ take k below).
Proof.
  revert above f. induction below as [|c below IH]; intros above f; simpl.
  - intros [= ->]. by left.
  - intros Hwalk.
    assert (∀ k, (0 < k ≤ length below)%nat →
                 ∃ k', (0 < k' ≤ S (length below))%nat ∧
                       (above ++ [c]) ++ take k below
                       = above ++ take k' (c :: below)) as Hshift.
    { intros k Hk. exists (S k). split; [lia |]. by rewrite <- app_assoc. }
    destruct (f !! (above ++ [c])) as [[content|]|] eqn:E.
    + by destruct below.
    + destruct (IH _ _ Hwalk) as [Heq | (Hn & Hd & k & Hk & ->)]; [by left |].
      right. repeat split; [done | done |]. by apply Hshift.
    + destruct (IH _ _ Hwalk) as [Heq | (Hn & Hd & k & Hk & ->)].
      * destruct (decide (q = above ++ [c])) as [-> | Hne].
        -- right. rewrite Heq, lookup_insert_eq. repeat split; [done |].
           exists 1%nat. simpl. split; [lia | done].
        -- left. by rewrite Heq, lookup_insert_ne.
      * right. destruct (decide ((above ++ [c]) ++ take k below = above ++ [c]))
          as [Heq | Hne].
        -- by rewrite Heq, lookup_insert_eq in Hn.
        -- rewrite lookup_insert_ne in Hn by done.
           repeat split; [done | done |]. by apply Hshift.
Qed.

Section ReportFiles.
Context `{PyLib}.

(** X9: generate_dependency_report changes the file system at the report file
    and nowhere else, except for the directories it creates on the way to
    it: every other file or directory that exists is kept as it is, whether
    the function returns or raises. *)
Theorem report_touches_its_path_only (p q : list (list N)) w :
  q ≠ p →
  let w' := (generate_dependency_report (Some p) w).2 in
  fs w' !! q = fs w !! q ∨
  (fs w !! q = None ∧ fs w' !! q = Some Dir ∧ q `prefix_of` parent p).
Proof.
  intros Hq. rewrite generate_dependency_report_run.
  destruct (check_updates w) as [[updates|e] w1] eqn:Eq;
    destruct (check_updates_world w _ _ Eq) as (Hfs & _);
    [| left; simpl; by rewrite Hfs].
  rewrite Hfs.
  destruct (mkdir_walk [] (parent p) (fs w)) as [f|e] eqn:Ew;
    [| left; by rewrite <- Hfs].
  assert (∀ w3 : world, fs w3 = f ∨ fs w3 = <[p := File
            (json_dumps 2 (report_of (clock w1 (ticks w1)) updates))]> f →
          fs w3 !! q = f !! q) as Hsame.
  { intros w3 [-> | ->]; [done | by rewrite lookup_insert_ne]. }
  assert (fs (let '(r, w3) := write_file p
                (json_dumps 2 (report_of (clock w1 (ticks w1)) updates))
                (set_fs f (set_ticks (S (ticks w1))
                   (printed (Rich (report_table updates)) w1))) in
              match r with
              | Ok _ => (Ok tt, printed (Markup (lit "\nReport saved to: "
                                                  ++ path_str p)) w3)
              | Raise e => (Raise e, w3)
              end).2 !! q = f !! q) as Hend.
  { unfold write_file. world_simpl.
    destruct (f !! p) as [[content|]|];
      [| apply Hsame; by left |];
      (destruct (parent p) as [|c ps];
         [| destruct (f !! (c :: ps)) as [[content'|]|]]);
      apply Hsame; world_simpl; auto. }
  cbv zeta. cbv zeta in Hend.
  destruct (write_file _ _ _) as [[[]|e] w3]; simpl in Hend |- *;
    rewrite Hend;
    (destruct (mkdir_walk_footprint [] (parent p) _ _ q Ew)
       as [Heq | (Hn & Hd & k & Hk & ->)];
     [by left | right; repeat split; [done | done | apply prefix_take]]).
Qed.



End ReportFiles.

(** ** The name of the report and the installed packages *)

Lemma zfill_inj width n m :
  zfill width n = zfill width m →
  (n mod 10 ^ N.of_nat width = m mod 10 ^ N.of_nat width)%N.
Proof.
  revert n m. induction width as [|width IH]; intros n m; simpl zfill.
  - intros _. change (10 ^ N.of_nat 0)%N with 1%N. by rewrite !N.mod_1_r.
  - intros [Hhigh Hlow]%app_inj_2; [| done].
    apply IH in Hhigh. injection Hlow as Hlow.
    rewrite Nat2N.inj_succ, N.pow_succ_r', !N.Div0.mod_mul_r, Hhigh.
    f_equal. lia.
Qed.

Lemma zfill_inj_bounded width n m :
  (n < 10 ^ N.of_nat width)%N → (m < 10 ^ N.of_nat width)%N →
  zfill width n = zfill width m → n = m.
Proof.
  intros Hn Hm Heq%zfill_inj. by rewrite !N.mod_small in Heq.
Qed.

(** X11: the report of a run is named after the date of the run and nothing
    else: two runs get the same path exactly when they take place on the
    same day.  The runs of one day write to one file; the runs of different
    days never share one. *)
Theorem report_path_is_the_date now now' :
  valid_date now → valid_date now' →
  report_path_at now = report_path_at now' ↔
  year now = year now' ∧ month now = month now' ∧ day now = day now'.
Proof.
  intros (Hy & Hm & Hd) (Hy' & Hm' & Hd'). unfold report_path_at.
  rewrite !strftime_packed. split.
  - intros Hname.
    assert (∀ a b c c' : list N, [a; b; c] = [a; b; c'] → c = c') as Hlast
      by (intros; congruence).
    apply Hlast in Hname.
    apply app_inv_head, app_inj_2 in Hname as [Hname _]; [| done].
    apply app_inj_1 in Hname as [Hyear Hname]; [| by rewrite !zfill_length].
    apply app_inj_1 in Hname as [Hmonth Hday]; [| by rewrite !zfill_length].
    repeat split; eapply zfill_inj_bounded; try eassumption; done.
  - by intros (-> & -> & ->).
Qed.

(** The dict a comprehension builds: a later pair replaces an earlier one. *)
Lemma installed_lookup (l : list (list N * list N)) (d : gmap (list N) (list N))
  (key : list N) :
  foldl (λ d pkg, <[pkg.1 := pkg.2]> d) d l !! key
  = match last (filter (λ pkg, pkg.1 = key) l) with
    | Some pkg => Some pkg.2
    | None => d !! key
    end.
Proof.
  revert d. induction l as [|pkg l IH]; intros d; [done |].
  simpl foldl. rewrite IH, filter_cons.
  destruct (decide (pkg.1 = key)) as [Hk | Hk].
  - rewrite last_cons.
    destruct (last (filter (λ pkg, pkg.1 = key) l)); [done |].
    by rewrite <- Hk, lookup_insert_eq.
  - destruct (last (filter (λ pkg, pkg.1 = key) l)); [done |].
    by rewrite lookup_insert_ne.
Qed.

(** X12: get_installed_packages maps every key of the working set to a version,
    the version of the last distribution with that key, and touches
    nothing. *)
Theorem installed_packages_last_wins w key :
  ∃ installed,
    get_installed_packages w = (Ok installed, w) ∧
    installed !! key
    = (λ pkg, pkg.2) <$> last (filter (λ pkg, pkg.1 = key) (working_set w)).
Proof.
  eexists. split; [done |]. rewrite installed_lookup.
  by destruct (last _).
Qed.

(** ** More on the README and the run *)

Section RunMore.
Context `{PyLib}.

(** What update_readme_status does to an existing README once its query
    has returned. *)
Lemma update_readme_status_writes w content updates w1 :
  fs w !! readme_path = Some (File content) →
  check_updates w = (Ok updates, w1) →
  update_readme_status w
  = (Ok tt,
     printed updated_line
       (set_fs (<[readme_path := File (splice content start_marker end_marker
                   (join (lit "\n") (status_section (clock w (ticks w)) updates)))]>
                (fs w))
          (set_ticks (S (ticks w)) w1))).
Proof.
  intros Hfile Hq.
  destruct (check_updates_world w _ _ Hq)
    as (Hfs & _ & Hticks & _ & Hclock & _).
  unfold update_readme_status, mbind, M_bind, bind, path_exists,
    get_installed_packages.
  rewrite Hfile, bool_decide_eq_true_2 by eauto. cbn [negb]. rewrite Hq.
  unfold datetime_now, read_text, write_text, write_file, console_print.
  change (parent readme_path) with (@nil (list N)).
  repeat progress (world_simpl; rewrite ?Hfs, ?Hfile, ?Hticks, ?Hclock).
  done.
Qed.

(** X13: when README.md is a directory, update_readme_status still runs its
    query and only then fails, with IsADirectoryError, on reading; nothing
    is written and nothing more is printed. *)
Theorem readme_is_a_directory w updates w1 :
  fs w !! readme_path = Some Dir →
  check_updates w = (Ok updates, w1) →
  update_readme_status w = (Raise IsADirectoryError, set_ticks (S (ticks w)) w1) ∧
  fs w1 = fs w ∧ calls w1 = S (calls w).
Proof.
  intros Hdir Hq.
  destruct (check_updates_world w _ _ Hq)
    as (Hfs & Hcalls & Hticks & _ & Hclock & _).
  split; [| done].
  unfold update_readme_status, mbind, M_bind, bind, path_exists,
    get_installed_packages.
  rewrite Hdir, bool_decide_eq_true_2 by eauto. cbn [negb]. rewrite Hq.
  unfold datetime_now, read_text.
  repeat progress (world_simpl; rewrite ?Hfs, ?Hdir, ?Hticks, ?Hclock).
  done.
Qed.

(** X14: a successful update changes README.md and no other file, and the README
    it writes holds the start marker: the next run will find a section to
    replace and will not append a second one.  It ends by printing that the
    README was updated. *)
Theorem update_writes_a_marked_readme w w' content :
  fs w !! readme_path = Some (File content) →
  update_readme_status w = (Ok tt, w') →
  ∃ text,
    fs w' = <[readme_path := File text]> (fs w) ∧
    (∃ i, occurs_at text start_marker i) ∧
    last (console w') = Some updated_line.
Proof.
  intros Hfile Hupd.
  destruct (check_updates w) as [[updates|e] w1] eqn:Hq.
  - rewrite (update_readme_status_writes _ _ _ _ Hfile Hq) in Hupd.
    injection Hupd as <-.
    exists (splice content start_marker end_marker
              (join (lit "\n") (status_section (clock w (ticks w)) updates))).
    split; [done |]. split.
    + destruct (splice_parts content start_marker end_marker
        (join (lit "\n") (status_section (clock w (ticks w)) updates)))
        as (before & after & -> & _).
      rewrite section_shape.
      destruct (heading_shape (clock w (ticks w))) as (date & -> & _).
      exists (length before), before,
        (date ++ [LF; LF] ++ table_text updates ++ after).
      split; [by rewrite <- !app_assoc | done].
    + world_simpl. exact (last_snoc _ _).
  - exfalso. revert Hupd.
    unfold update_readme_status, mbind, M_bind, bind, path_exists,
      get_installed_packages.
    rewrite Hfile, bool_decide_eq_true_2 by eauto. cbn [negb].
    by rewrite Hq.
Qed.


(** X16: a run whose first query raises writes nothing at all: no directory, no
    report, no change to the README; after the banner nothing is printed. *)
Theorem first_query_raises w e :
  (check_updates w).1 = Raise e →
  (main w).1 = Raise e ∧
  fs (main w).2 = fs w ∧
  console (main w).2 = console w ++ [banner] ∧
  calls (main w).2 = S (calls w).
Proof.
  intros Hq. rewrite main_steps. unfold report_step.
  rewrite generate_dependency_report_run.
  pose proof (check_updates_answer w
    (set_ticks (S (ticks w)) (printed banner w)) eq_refl eq_refl) as Hsame.
  rewrite Hq in Hsame.
  destruct (check_updates (set_ticks _ _)) as [r w1] eqn:Eq.
  simpl in Hsame. subst r.
  destruct (check_updates_world _ _ _ Eq)
    as (Hfs & Hcalls & _ & _ & _ & _ & Hcon).
  cbn [fs calls console set_ticks printed set_console] in Hfs, Hcalls, Hcon.
  cbn [fst snd]. split; [done |]. split; [done |]. split; [| done].
  destruct Hcon as [Hcon | Hcon]; [done |]. exfalso.
  revert Eq. rewrite check_updates_run.
  destruct (subprocess _ _) as [rc out err | e'];
    [destruct (parse_outdated out) as [updates [[]|]] |];
    intros Heq; try discriminate; injection Heq as _ <-;
    cbn [console launched set_calls set_ticks printed set_console] in Hcon;
    apply (f_equal length) in Hcon; rewrite !length_app in Hcon;
    simpl in Hcon; lia.
Qed.

(** X17: a run whose second query raises stops half way: the report of the first
    query is on disk, the README is as it was, and the summary is not
    printed. *)
Theorem second_query_raises w w1 e node :
  report_step w = (Ok tt, w1) →
  fs w !! readme_path = Some node →
  (check_updates (launched w)).1 = Raise e →
  main w = (Raise e, (check_updates w1).2) ∧
  fs (main w).2 = fs w1 ∧
  (∃ text, fs (main w).2 !! report_path_at (clock w (ticks w)) = Some (File text)) ∧
  fs (main w).2 !! readme_path = Some node.
Proof.
  intros Hstep Hnode Hq.
  pose proof Hstep as Hok. unfold report_step in Hok.
  apply generate_dependency_report_ok in Hok
    as (updates & wq & f & _ & Hwalk & Hfs & _ & Hcalls & _ & Hsub & _).
  simpl in Hwalk, Hcalls, Hsub.
  assert (fs w1 !! readme_path = Some node) as Hnode1.
  { rewrite Hfs, <- Hnode. by apply report_leaves_readme. }
  pose proof (check_updates_answer (launched w) w1 Hsub Hcalls) as Hsame.
  rewrite Hq in Hsame.
  destruct (check_updates w1) as [r w2] eqn:Eq. simpl in Hsame. subst r.
  destruct (check_updates_world _ _ _ Eq) as (Hfs2 & _).
  assert (update_readme_status w1 = (Raise e, w2)) as Hupd.
  { unfold update_readme_status, mbind, M_bind, bind, path_exists,
      get_installed_packages.
    rewrite Hnode1, bool_decide_eq_true_2 by eauto. cbn [negb].
    by rewrite Eq. }
  assert (main w = (Raise e, w2)) as Hmain
    by (by rewrite main_steps, Hstep, Hupd).
  rewrite Hmain. simpl. repeat split; [done | | by rewrite Hfs2].
  eexists. rewrite Hfs2, Hfs. apply lookup_insert_eq.
Qed.

(** X18: the summary does not know what happened: when README.md does not exist,
    a run that completes prints [README.md not found] and then, as its last
    line, that it has updated README.md. *)
Theorem summary_claims_the_update w w' :
  fs w !! readme_path = None →
  main w = (Ok tt, w') →
  ∃ earlier line,
    console w' = earlier ++ [readme_diagnostic; line;
      Markup (lit "1. Generated dependency report: "
              ++ path_str (report_path_at (clock w (ticks w))));
      last_line].
Proof.
  intros Hno. rewrite main_steps.
  destruct (report_step w) as [[[]|e] w1] eqn:Hstep; [| done].
  pose proof Hstep as Hok. unfold report_step in Hok.
  apply generate_dependency_report_ok in Hok
    as (updates & wq & f & _ & Hwalk & Hfs & _).
  simpl in Hwalk.
  assert (fs w1 !! readme_path = None) as Hno1.
  { rewrite Hfs, <- Hno. by apply report_leaves_readme. }
  rewrite (update_readme_status_missing w1 Hno1).
  intros [= <-]. eexists (console w1), _. world_simpl.
  by rewrite <- !app_assoc.
Qed.


End RunMore.

(** ** Concrete runs of the further properties *)


Lemma check_updates_lists_packages_witness :
  check_updates no_readme_world = (Ok [alpha], launched no_readme_world).
Proof.
  apply (check_updates_lists_packages no_readme_world 0 outdated_alpha []
           [VDict [(lit "name", VStr (lit "alpha"));
                   (lit "version", VStr (lit "1.0"));
                   (lit "latest", VStr (lit "2.0"))]]);
    vm_compute; reflexivity.
Defined.

Lemma check_updates_first_bad_item_witness :
  check_updates wrong_shape_world
  = (Raise (KeyError (lit "version")), launched wrong_shape_world).
Proof.
  apply (check_updates_first_bad_item wrong_shape_world 0
           (jlit "[{'name': 'alpha'}]") [] []
           (VDict [(lit "name", VStr (lit "alpha"))]) [] []);
    vm_compute; reflexivity.
Defined.

Lemma check_updates_reads_stdout_only_witness :
  (check_updates no_readme_world).1 = (check_updates trusted_failure_world).1.
Proof.
  apply (check_updates_reads_stdout_only no_readme_world trusted_failure_world
           0 1 outdated_alpha [] []); vm_compute; reflexivity.
Defined.

Lemma report_touches_its_path_only_witness :
  let w' := (generate_dependency_report (Some (report_path_at noon))
               changing_world).2 in
  fs w' !! readme_path = fs changing_world !! readme_path ∨
  (fs changing_world !! readme_path = None ∧ fs w' !! readme_path = Some Dir ∧
   readme_path `prefix_of` parent (report_path_at noon)).
Proof.
  apply (report_touches_its_path_only (report_path_at noon) readme_path
           changing_world).
  by vm_compute.
Defined.


(** In that directory the run ends in NotADirectoryError and writes
    nothing. *)
Lemma blocked_run :
  (main blocked_world).1 = Raise NotADirectoryError ∧
  fs (main blocked_world).2 = fs blocked_world.
Proof. vm_compute; repeat split. Qed.

Lemma report_path_is_the_date_witness :
  report_path_at noon = report_path_at evening ↔
  year noon = year evening ∧ month noon = month evening ∧ day noon = day evening.
Proof.
  apply report_path_is_the_date; vm_compute; repeat split.
Defined.

Lemma readme_is_a_directory_witness :
  update_readme_status readme_dir_world
  = (Raise IsADirectoryError, set_ticks 1 (launched readme_dir_world)) ∧
  fs (launched readme_dir_world) = fs readme_dir_world ∧
  calls (launched readme_dir_world) = 1%nat.
Proof.
  apply (readme_is_a_directory readme_dir_world [alpha]
           (launched readme_dir_world)); vm_compute; reflexivity.
Defined.

Lemma update_writes_a_marked_readme_witness :
  ∃ text,
    fs (update_readme_status changing_world).2
    = <[readme_path := File text]> (fs changing_world) ∧
    (∃ i, occurs_at text start_marker i) ∧
    last (console (update_readme_status changing_world).2) = Some updated_line.
Proof.
  apply (update_writes_a_marked_readme changing_world
           (update_readme_status changing_world).2 (lit "# Title\n"));
    vm_compute; reflexivity.
Defined.


Lemma first_query_raises_witness :
  (main no_poetry_world).1 = Raise FileNotFoundError ∧
  fs (main no_poetry_world).2 = fs no_poetry_world ∧
  console (main no_poetry_world).2 = console no_poetry_world ++ [banner] ∧
  calls (main no_poetry_world).2 = 1%nat.
Proof.
  apply (first_query_raises no_poetry_world FileNotFoundError).
  vm_compute; reflexivity.
Defined.

Lemma second_query_raises_witness :
  main poetry_vanishes_world
  = (Raise FileNotFoundError,
     (check_updates (report_step poetry_vanishes_world).2).2) ∧
  fs (main poetry_vanishes_world).2 = fs (report_step poetry_vanishes_world).2 ∧
  (∃ text, fs (main poetry_vanishes_world).2 !! report_path_at noon
           = Some (File text)) ∧
  fs (main poetry_vanishes_world).2 !! readme_path
  = Some (File (lit "# Title\n")).
Proof.
  apply (second_query_raises poetry_vanishes_world
           (report_step poetry_vanishes_world).2 FileNotFoundError
           (File (lit "# Title\n"))); vm_compute; reflexivity.
Defined.

Lemma summary_claims_the_update_witness :
  ∃ earlier line,
    console (main no_readme_world).2
    = earlier ++ [readme_diagnostic; line;
        Markup (lit "1. Generated dependency report: "
                ++ path_str (report_path_at noon));
        last_line].
Proof.
  apply (summary_claims_the_update no_readme_world (main no_readme_world).2);
    vm_compute; reflexivity.
Defined.

